(** * Transcript coder: chunking, response parsing and highlighting

    A shallow embedding of [app.py] (the Tkinter / Azure OpenAI transcript
    coder) together with the properties its specification states about the
    chunker, the response parser, the quote highlighter and the orchestrating
    pipeline.

    Python [str] values are modelled as [string] (sequences of 8-bit
    characters); [len], [strip], [lower] and [upper] are the ASCII fragment of
    the Python operations.  Python [int] values are modelled as [Z]. *)

From Stdlib Require Import String Ascii List ZArith Lia Bool.
From Stdlib Require Import Decimal DecimalString SpecFloat.
Import ListNotations.

Open Scope string_scope.
Open Scope Z_scope.

(** ** Python string primitives used by the program *)

Module PyStr.

Definition newline : ascii := "010"%char.

(** The separator ["\n"]. *)
Definition nl : string := String newline EmptyString.

(** [len(s)] *)
Definition len (s : string) : Z := Z.of_nat (String.length s).

(** [sep.join(parts)] *)
Definition join (sep : string) (parts : list string) : string :=
  String.concat sep parts.

(** [s.split(c)] for a one-character separator: the result is never empty,
    [''.split(c) == ['']]. *)
Fixpoint split_on (c : ascii) (s : string) : list string :=
  match s with
  | EmptyString => [EmptyString]
  | String a s' =>
      if Ascii.eqb a c then EmptyString :: split_on c s'
      else match split_on c s' with
           | h :: t => String a h :: t
           | [] => [String a EmptyString]
           end
  end.

(** Truth value of a string: [bool(s)]. *)
Definition truthy (s : string) : bool :=
  match s with EmptyString => false | String _ _ => true end.

(** [c.isspace()] on the ASCII range: TAB, LF, VT, FF, CR, the four
    separators FS, GS, RS, US and the blank. *)
Definition isspace (c : ascii) : bool :=
  let n := nat_of_ascii c in
  ((9 <=? n)%nat && (n <=? 13)%nat) || ((28 <=? n)%nat && (n <=? 32)%nat).

Fixpoint lstrip (s : string) : string :=
  match s with
  | EmptyString => EmptyString
  | String a s' => if isspace a then lstrip s' else s
  end.

Fixpoint rstrip (s : string) : string :=
  match s with
  | EmptyString => EmptyString
  | String a s' =>
      match rstrip s' with
      | EmptyString => if isspace a then EmptyString else String a EmptyString
      | r => String a r
      end
  end.

(** [s.strip()] *)
Definition strip (s : string) : string := rstrip (lstrip s).

Definition lower_char (c : ascii) : ascii :=
  let n := nat_of_ascii c in
  if ((65 <=? n)%nat && (n <=? 90)%nat) then ascii_of_nat (n + 32) else c.

Definition upper_char (c : ascii) : ascii :=
  let n := nat_of_ascii c in
  if ((97 <=? n)%nat && (n <=? 122)%nat) then ascii_of_nat (n - 32) else c.

Fixpoint map_chars (f : ascii -> ascii) (s : string) : string :=
  match s with
  | EmptyString => EmptyString
  | String a s' => String (f a) (map_chars f s')
  end.

(** [s.lower()] and [s.upper()] *)
Definition lower : string -> string := map_chars lower_char.
Definition upper : string -> string := map_chars upper_char.

(** [needle in hay] *)
Fixpoint contains (needle hay : string) : bool :=
  String.prefix needle hay
  || match hay with
     | EmptyString => false
     | String _ hay' => contains needle hay'
     end.

(** [c in s] for a single character, as a proposition. *)
Fixpoint occurs (c : ascii) (s : string) : Prop :=
  match s with
  | EmptyString => False
  | String a s' => a = c \/ occurs c s'
  end.

(** [c * n]: a character repeated. *)
Fixpoint replicate (n : nat) (c : ascii) : string :=
  match n with
  | O => EmptyString
  | S n' => String c (replicate n' c)
  end.

(** [str(n)] for a natural number. *)
Definition of_nat (n : nat) : string := NilEmpty.string_of_uint (Nat.to_uint n).

End PyStr.

Import PyStr.

(** Truth value of a Python list: [bool(l)]. *)
Definition nonempty {A : Type} (l : list A) : bool :=
  match l with [] => false | _ :: _ => true end.

(** ** The chunker ([chunk_text]) *)

(** The three local variables of [chunk_text]. *)
Record chunker := mkChunker {
  chunks : list string;
  buffer : list string;
  current : Z
}.

Definition chunk_init : chunker :=
  {| chunks := []; buffer := []; current := 0 |}.

(** The loop's guard: [current + len(para) + 1 > max_chars and buffer]. *)
Definition starts_new_chunk (max_chars : Z) (st : chunker) (para : string) : bool :=
  (current st + len para + 1 >? max_chars) && nonempty (buffer st).

(** One iteration of [for para in paragraphs]. *)
Definition chunk_step (max_chars : Z) (st : chunker) (para : string) : chunker :=
  let st1 :=
    if starts_new_chunk max_chars st para
    then {| chunks := chunks st ++ [join nl (buffer st)]; buffer := []; current := 0 |}
    else st in
  {| chunks := chunks st1;
     buffer := buffer st1 ++ [para];
     current := current st1 + len para + 1 |}.

Definition chunk_loop (max_chars : Z) (paragraphs : list string) : chunker :=
  fold_left (chunk_step max_chars) paragraphs chunk_init.

Definition chunk_text (paragraphs : list string) (max_chars : Z) : list string :=
  let st := chunk_loop max_chars paragraphs in
  if nonempty (buffer st) then chunks st ++ [join nl (buffer st)] else chunks st.

(** The default budget [max_chars = 3500]. *)
Definition default_max_chars : Z := 3500.

(** The same loop with every flushed buffer kept as the list of paragraphs it
    held instead of their join: which paragraphs went into which chunk. *)
Record grouper := mkGrouper {
  groups : list (list string);
  gbuffer : list string;
  gcurrent : Z
}.

Definition group_init : grouper :=
  {| groups := []; gbuffer := []; gcurrent := 0 |}.

Definition group_step (max_chars : Z) (st : grouper) (para : string) : grouper :=
  let st1 :=
    if (gcurrent st + len para + 1 >? max_chars) && nonempty (gbuffer st)
    then {| groups := groups st ++ [gbuffer st]; gbuffer := []; gcurrent := 0 |}
    else st in
  {| groups := groups st1;
     gbuffer := gbuffer st1 ++ [para];
     gcurrent := gcurrent st1 + len para + 1 |}.

Definition group_loop (max_chars : Z) (paragraphs : list string) : grouper :=
  fold_left (group_step max_chars) paragraphs group_init.

Definition chunk_groups (paragraphs : list string) (max_chars : Z) : list (list string) :=
  let st := group_loop max_chars paragraphs in
  if nonempty (gbuffer st) then groups st ++ [gbuffer st] else groups st.

(** What the counter [current] adds up: every buffered paragraph and one
    separator after each of them. *)
Fixpoint cost (l : list string) : Z :=
  match l with
  | [] => 0
  | p :: l' => len p + 1 + cost l'
  end.

(** A closed group of paragraphs respects the budget: the counter let it grow
    only while its cost stayed within [max_chars], unless it is one paragraph. *)
Definition fits (max_chars : Z) (grp : list string) : Prop :=
  cost grp <= max_chars \/ exists p, grp = [p].

(** A paragraph without a line break inside. *)
Definition no_newline (s : string) : Prop := ~ occurs newline s.

(** The loop invariant of [chunk_text], stated against the grouping loop. *)
Record chunk_inv (B : Z) (l : list string) (st : chunker) (g : grouper) : Prop := {
  inv_chunks : chunks st = map (join nl) (groups g);
  inv_buffer : buffer st = gbuffer g;
  inv_current : current st = gcurrent g;
  inv_cost : current st = cost (buffer st);
  inv_concat : (concat (groups g) ++ gbuffer g)%list = l;
  inv_nonempty : Forall (fun grp => grp <> []) (groups g);
  inv_fits : Forall (fits B) (groups g);
  inv_buffer_fits : gbuffer g = [] \/ fits B (gbuffer g);
  inv_started : l <> [] -> gbuffer g <> []
}.

(** ** Category metadata ([CATEGORY_DETAILS]) *)

Record category_meta := mkMeta { title : string; color : string }.

(** The dictionary literal, in insertion order (the order [.items()] yields). *)
Definition CATEGORY_DETAILS : list (string * category_meta) :=
  [ ("A", {| title := "Background & Context"; color := "FFF2CC" |});
    ("B", {| title := "Feasibility & Practical Implementation"; color := "DAEEF3" |});
    ("C", {| title := "Validity & Learning Assurance"; color := "E2F0D9" |});
    ("D", {| title := "Disciplinary Relevance"; color := "FCE4D6" |});
    ("E", {| title := "Student Engagement & Observations"; color := "E4DFEC" |});
    ("F", {| title := "Reflection & Improvement"; color := "D9E1F2" |});
    ("G", {| title := "Sustainability & Future Use"; color := "F2F2F2" |});
    ("H", {| title := "Additional Insights"; color := "D5E8D4" |}) ].

(** [d.get(key)] on a dictionary kept as its list of items (keys distinct). *)
Fixpoint dict_get {V : Type} (key : string) (d : list (string * V)) : option V :=
  match d with
  | [] => None
  | (k, v) :: d' => if String.eqb k key then Some v else dict_get key d'
  end.

(** [key in d] *)
Definition dict_mem {V : Type} (key : string) (d : list (string * V)) : bool :=
  match dict_get key d with Some _ => true | None => false end.

Record QuoteMatch := mkQuoteMatch { category : string; quote : string }.

(** ** The document model

    What the program uses of python-docx: a document is the sequence of its
    body paragraphs; a paragraph holds runs and hyperlinks; [paragraph.text]
    concatenates the text of both, [paragraph.runs] lists the runs only; a
    run has its text and an optional run-properties element [w:rPr] whose
    children are XML elements. *)

Record element := mkElement {
  tag : string;
  attrib : list (string * string)
}.

Record run := mkRun {
  r_text : string;
  rPr : option (list element)
}.

Inductive inline :=
| Run (r : run)
| Hyperlink (text : string).

Record paragraph := mkParagraph { content : list inline }.

Definition document := list paragraph.

Definition inline_text (i : inline) : string :=
  match i with Run r => r_text r | Hyperlink t => t end.

(** [paragraph.text] *)
Definition paragraph_text (p : paragraph) : string :=
  String.concat EmptyString (map inline_text (content p)).

(** [paragraph.runs] *)
Definition paragraph_runs (p : paragraph) : list run :=
  flat_map (fun i => match i with Run r => [r] | Hyperlink _ => [] end) (content p).

(** The WordprocessingML namespace, the one prefix the program names. *)
Definition nsmap (prefix : string) : string :=
  if String.eqb prefix "w"
  then "http://schemas.openxmlformats.org/wordprocessingml/2006/main"
  else EmptyString.

(** [qn("w:shd")]: the Clark name of a prefixed tag. *)
Definition qn (prefixed : string) : string :=
  match split_on ":"%char prefixed with
  | [prefix; tagroot] => "{" ++ nsmap prefix ++ "}" ++ tagroot
  | _ => prefixed
  end.

(** [run._element.get_or_add_rPr()]: the children of the run's [w:rPr],
    created empty when the run has none. *)
Definition get_or_add_rPr (r : run) : list element :=
  match rPr r with Some children => children | None => [] end.

(** [apply_shading(run, color_hex)]: the run after the call. *)
Definition apply_shading (r : run) (color_hex : string) : run :=
  let rpr := get_or_add_rPr r in
  let rpr := filter (fun child => negb (String.eqb (tag child) (qn "w:highlight"))) rpr in
  let shd := {| tag := qn "w:shd";
                attrib := [(qn "w:val", "clear"); (qn "w:fill", color_hex)] |} in
  {| r_text := r_text r; rPr := Some (rpr ++ [shd])%list |}.

(** [for run in paragraph.runs: apply_shading(run, color_hex)] *)
Definition shade_runs (color_hex : string) (p : paragraph) : paragraph :=
  {| content := map (fun i => match i with
                              | Run r => Run (apply_shading r color_hex)
                              | Hyperlink t => Hyperlink t
                              end) (content p) |}.

(** One iteration of [for paragraph in document.paragraphs] in
    [highlight_quote]; the state is the paragraphs already visited (as the
    loop left them) and the flag [applied]. *)
Definition highlight_step (normalized_lower color_hex : string)
    (st : document * bool) (p : paragraph) : document * bool :=
  let text := strip (paragraph_text p) in
  if negb (truthy text) then ((fst st ++ [p])%list, snd st)
  else if contains normalized_lower (lower text)
       then ((fst st ++ [shade_runs color_hex p])%list, true)
       else ((fst st ++ [p])%list, snd st).

(** [highlight_quote(document, quote, color_hex)]: the document after the call
    and the returned flag. *)
Definition highlight_quote (doc : document) (quote color_hex : string) : document * bool :=
  let normalized := strip quote in
  if negb (truthy normalized) then (doc, false)
  else
    let normalized_lower := lower normalized in
    fold_left (highlight_step normalized_lower color_hex) doc ([], false).

(** The paragraphs [highlight_quote] marks for a quote. *)
Definition paragraph_matches (quote : string) (p : paragraph) : bool :=
  let text := strip (paragraph_text p) in
  truthy text && contains (lower (strip quote)) (lower text).

(** What [highlight_quote] does to one paragraph. *)
Definition mark (quote color_hex : string) (p : paragraph) : paragraph :=
  if paragraph_matches quote p then shade_runs color_hex p else p.

(** The fill values of the [w:shd] children of a run's properties, in
    document order: the shading values the run carries. *)
Definition shadings (r : run) : list string :=
  flat_map (fun child =>
              if String.eqb (tag child) (qn "w:shd")
              then match dict_get (qn "w:fill") (attrib child) with
                   | Some fill => [fill]
                   | None => []
                   end
              else [])
           (get_or_add_rPr r).

(** [run.bold = True] *)
Definition set_bold (r : run) : run :=
  let rpr := get_or_add_rPr r in
  let rpr := if existsb (fun child => String.eqb (tag child) (qn "w:b")) rpr
             then rpr else (rpr ++ [{| tag := qn "w:b"; attrib := [] |}])%list in
  {| r_text := r_text r; rPr := Some rpr |}.

(** [paragraph.add_run(text)] on a fresh run. *)
Definition new_run (text : string) : run := {| r_text := text; rPr := None |}.

(** U+2013 EN DASH, as its UTF-8 bytes. *)
Definition en_dash : string :=
  String "226"%char (String "128"%char (String "147"%char EmptyString)).

Definition legend_title : paragraph :=
  {| content := [Run (set_bold (new_run "Coding legend"))] |}.

Definition legend_entry (code : string) (meta : category_meta) : paragraph :=
  {| content := [ Run (new_run (code ++ ". " ++ title meta ++ " " ++ en_dash ++ " "));
                  Run (apply_shading (new_run "example") (color meta)) ] |}.

(** The paragraphs [_append_legend] adds. *)
Definition legend_block : list paragraph :=
  legend_title :: map (fun cm => legend_entry (fst cm) (snd cm)) CATEGORY_DETAILS.

(** [_append_legend(document)]: every [add_paragraph] appends at the end. *)
Definition _append_legend (doc : document) : document :=
  fold_left (fun d cm => (d ++ [legend_entry (fst cm) (snd cm)])%list)
            CATEGORY_DETAILS (doc ++ [legend_title])%list.

(** ** Decoded JSON values and Python exceptions *)

(** What [json.loads] returns: [None], a [bool], an [int] ([JNumber]), a
    [float] (as the IEEE 754 value it is), a [str], a [list] or a [dict]. *)
#[warnings="-register-all"]
Inductive json :=
| JNull
| JBool (b : bool)
| JNumber (n : Z)
| JFloat (f : spec_float)
| JString (s : string)
| JArray (items : list json)
| JObject (members : list (string * json)).

Inductive exn_class :=
| RuntimeError
| ValueError
| AttributeError
| TypeError
| KeyError
| PackageNotFoundError
| OSError.

(** An exception: its class and [str(exc)]. *)
Record exn := mkExn { exn_kind : exn_class; exn_str : string }.

Inductive result (A : Type) :=
| Ok (a : A)
| Raise (e : exn).
Arguments Ok {A} a.
Arguments Raise {A} e.

Definition rbind {A B : Type} (r : result A) (k : A -> result B) : result B :=
  match r with Ok a => k a | Raise e => Raise e end.

Declare Scope result_scope.
Delimit Scope result_scope with result.
Notation "'let?' x ':=' r 'in' k" := (rbind r (fun x => k))
  (at level 10, x name, r at level 100, k at level 200) : result_scope.

(** [type(v).__name__] *)
Definition type_name (v : json) : string :=
  match v with
  | JNull => "NoneType"
  | JBool _ => "bool"
  | JNumber _ => "int"
  | JFloat _ => "float"
  | JString _ => "str"
  | JArray _ => "list"
  | JObject _ => "dict"
  end.

Definition no_attribute (v : json) (attr : string) : exn :=
  {| exn_kind := AttributeError;
     exn_str := "'" ++ type_name v ++ "' object has no attribute '" ++ attr ++ "'" |}.

(** [bool(v)] *)
Definition json_truthy (v : json) : bool :=
  match v with
  | JNull => false
  | JBool b => b
  | JNumber n => negb (n =? 0)
  | JFloat f => match f with S754_zero _ => false | _ => true end
  | JString s => truthy s
  | JArray items => nonempty items
  | JObject members => nonempty members
  end.

(** [v.get(key, default)]: only a dictionary has the method. *)
Definition py_get (v : json) (key : string) (default : json) : result json :=
  match v with
  | JObject members =>
      Ok (match dict_get key members with Some x => x | None => default end)
  | _ => Raise (no_attribute v "get")
  end.

(** [v.strip()]: only a string has the method. *)
Definition py_strip (v : json) : result string :=
  match v with
  | JString s => Ok (strip s)
  | _ => Raise (no_attribute v "strip")
  end.

Fixpoint chars (s : string) : list string :=
  match s with
  | EmptyString => []
  | String a s' => String a EmptyString :: chars s'
  end.

(** [for x in v]: the items of a list, the keys of a dictionary, the
    characters of a string; anything else is not iterable. *)
Definition py_iter (v : json) : result (list json) :=
  match v with
  | JArray items => Ok items
  | JObject members => Ok (map (fun kv => JString (fst kv)) members)
  | JString s => Ok (map JString (chars s))
  | _ => Raise {| exn_kind := TypeError;
                  exn_str := "'" ++ type_name v ++ "' object is not iterable" |}
  end.

(** The inner loop of [_code_chunk]: [for quote in item.get("quotes", [])]. *)
Fixpoint quotes_loop (category : string) (quotes : list json)
    (matches : list QuoteMatch) : result (list QuoteMatch) :=
  match quotes with
  | [] => Ok matches
  | quote :: rest =>
      (let? quote := py_strip (if json_truthy quote then quote else JString EmptyString) in
       quotes_loop category rest
         (if truthy quote
          then (matches ++ [{| category := category; quote := quote |}])%list
          else matches))%result
  end.

(** The outer loop of [_code_chunk]: [for item in parsed.get("matches", [])]. *)
Fixpoint items_loop (items : list json) (matches : list QuoteMatch)
    : result (list QuoteMatch) :=
  match items with
  | [] => Ok matches
  | item :: rest =>
      (let? c := py_get item "category" (JString EmptyString) in
       let? c := py_strip c in
       let category := upper c in
       if negb (dict_mem category CATEGORY_DETAILS) then items_loop rest matches
       else
         let? quotes := py_get item "quotes" (JArray []) in
         let? quotes := py_iter quotes in
         let? matches := quotes_loop category quotes matches in
         items_loop rest matches)%result
  end.

(** Lines 249-257 of [_code_chunk]: the matches read off a decoded response. *)
Definition parse_matches (parsed : json) : result (list QuoteMatch) :=
  (let? items := py_get parsed "matches" (JArray []) in
   let? items := py_iter items in
   items_loop items [])%result.

(** ** The application: its state and its effects *)

Inductive dialog :=
| showerror (title message : string)
| showinfo (title message : string).

(** Everything the pipeline reads or changes outside its local variables: the
    log pane (one entry per [_log] call), the message boxes shown, the
    documents on disk by path, the paths that cannot be written (each with
    the message of the [OSError] the operating system gives, a
    [PermissionError] for a protected or locked file), and the state of the
    process button. *)
Record world := mkWorld {
  log : list string;
  dialogs : list dialog;
  disk : string -> option document;
  write_error : string -> option string;
  button_enabled : bool
}.

(** What [client.chat.completions.create] does for a request: it raises
    [OpenAIError], or returns a response whose message content is a string or
    [None]. *)
Inductive reply :=
| ServiceError
| Content (raw : option string).

(** The attributes of [TranscriptCoderApp] the pipeline uses: the client (as
    the reply it gives for a chunk) and the two path variables. *)
Record app := mkApp {
  client : string -> reply;
  input_path : string;
  output_path : string
}.

(** Computations of the pipeline: they change the world and return or raise. *)
Definition M (A : Type) : Type := world -> result A * world.

Definition ret {A : Type} (a : A) : M A := fun w => (Ok a, w).

Definition raise {A : Type} (e : exn) : M A := fun w => (Raise e, w).

Definition bind {A B : Type} (m : M A) (k : A -> M B) : M B :=
  fun w => match m w with
           | (Ok a, w') => k a w'
           | (Raise e, w') => (Raise e, w')
           end.

Definition lift {A : Type} (r : result A) : M A := fun w => (r, w).

Declare Scope app_scope.
Delimit Scope app_scope with app.
Notation "x <- m ;; k" := (bind m (fun x => k))
  (at level 61, m at next level, right associativity) : app_scope.
Notation "m ;; k" := (bind m (fun _ => k))
  (at level 61, right associativity) : app_scope.

(** [self._log(message)] *)
Definition _log (message : string) : M unit :=
  fun w => (Ok tt, {| log := (log w ++ [message])%list; dialogs := dialogs w;
                      disk := disk w; write_error := write_error w;
                      button_enabled := button_enabled w |}).

(** [messagebox.showerror] and [messagebox.showinfo] *)
Definition messagebox (d : dialog) : M unit :=
  fun w => (Ok tt, {| log := log w; dialogs := (dialogs w ++ [d])%list;
                      disk := disk w; write_error := write_error w;
                      button_enabled := button_enabled w |}).

(** [Document(path)] *)
Definition load_document (path : string) : M document :=
  fun w => match disk w path with
           | Some doc => (Ok doc, w)
           | None => (Raise {| exn_kind := PackageNotFoundError;
                               exn_str := "Package not found at '" ++ path ++ "'" |}, w)
           end.

Definition write_file (d : string -> option document) (path : string) (doc : document)
    : string -> option document :=
  fun p => if String.eqb p path then Some doc else d p.

(** [document.save(path)]: it raises where the path cannot be written, and
    writes nothing then. *)
Definition save (doc : document) (path : string) : M unit :=
  fun w => match write_error w path with
           | Some message => (Raise {| exn_kind := OSError; exn_str := message |}, w)
           | None =>
               (Ok tt, {| log := log w; dialogs := dialogs w;
                          disk := write_file (disk w) path doc;
                          write_error := write_error w;
                          button_enabled := button_enabled w |})
           end.

(** [self.process_button.config(state=...)] *)
Definition set_button (enabled : bool) (w : world) : world :=
  {| log := log w; dialogs := dialogs w; disk := disk w;
     write_error := write_error w; button_enabled := enabled |}.

Definition service_failed : exn :=
  {| exn_kind := RuntimeError;
     exn_str := "Azure OpenAI call failed. Please confirm your endpoint, "
                ++ "deployment name, API version, and key." |}.

Definition not_valid_json (content : string) : exn :=
  {| exn_kind := ValueError;
     exn_str := "Model response was not valid JSON: " ++ content |}.

Definition no_text : exn :=
  {| exn_kind := ValueError; exn_str := "No text found in the document." |}.

(** The lines the pipeline logs. *)
Definition loading_line : string := "Loading transcript...".

Definition no_excerpts_line : string :=
  "No excerpts were returned by the model. Saving original document.".

Definition applied_line (n : nat) : string := "Applied " ++ of_nat n ++ " highlight(s).".

Definition saved_line (self : app) : string :=
  "Saved coded transcript to " ++ output_path self ++ ".".

Definition coding_line (chunk : string) : string :=
  "Coding chunk with " ++ of_nat (String.length chunk) ++ " characters...".

Definition received_line (n : nat) : string :=
  "Received " ++ of_nat n ++ " matches.".

(** The non-empty trimmed paragraph texts, in order. *)
Definition extract_paragraphs (doc : document) : list string :=
  filter truthy (map (fun p => strip (paragraph_text p)) doc).

(** A lower-case hexadecimal digit. *)
Definition hex_digit (n : nat) : ascii :=
  if (n <? 10)%nat then ascii_of_nat (48 + n) else ascii_of_nat (87 + n).

(** Whether a character occurs in a string. *)
Fixpoint has_char (c : ascii) (s : string) : bool :=
  match s with
  | EmptyString => false
  | String a s' => Ascii.eqb a c || has_char c s'
  end.

(** One character of [repr(s)], [q] being the quote chosen: the quote and the
    backslash are escaped, TAB, LF and CR have their letters, the other
    control characters and DEL are written in hexadecimal; everything else,
    the characters above the ASCII range too, stands for itself. *)
Definition repr_char (q c : ascii) : string :=
  let n := nat_of_ascii c in
  if Ascii.eqb c q || Ascii.eqb c "092"%char then String "092"%char (String c EmptyString)
  else if Ascii.eqb c "009"%char then String "092"%char "t"
  else if Ascii.eqb c "010"%char then String "092"%char "n"
  else if Ascii.eqb c "013"%char then String "092"%char "r"
  else if (n <? 32)%nat || (n =? 127)%nat
       then String "092"%char
              (String "x" (String (hex_digit (n / 16)) (String (hex_digit (n mod 16))
                                                               EmptyString)))
       else String c EmptyString.

Fixpoint repr_chars (q : ascii) (s : string) : string :=
  match s with
  | EmptyString => EmptyString
  | String c s' => repr_char q c ++ repr_chars q s'
  end.

(** [repr(s)] for a string: between apostrophes, or between double quotes
    when the string holds an apostrophe and no double quote. *)
Definition py_repr (s : string) : string :=
  let q := if has_char "'"%char s && negb (has_char "034"%char s)
           then "034"%char else "'"%char in
  String q (repr_chars q s ++ String q EmptyString).

(** [_apply_highlights(document, matches)]: the document after the call and
    the returned count.  The local counter [applied] is the third argument, 0
    at the call; [CATEGORY_DETAILS[match.category]] raises [KeyError] for a
    category that is no key, and [str] of a [KeyError] is [repr] of the key. *)
Fixpoint _apply_highlights (doc : document) (matches : list QuoteMatch)
    (applied : nat) : result (document * nat) :=
  match matches with
  | [] => Ok (doc, applied)
  | m :: rest =>
      match dict_get (category m) CATEGORY_DETAILS with
      | None => Raise {| exn_kind := KeyError; exn_str := py_repr (category m) |}
      | Some meta =>
          let '(doc', hit) := highlight_quote doc (quote m) (color meta) in
          _apply_highlights doc' rest (if hit then S applied else applied)
      end
  end.

Section Pipeline.

(** [json.loads] on a string: the decoded value, or [None] where it raises
    [JSONDecodeError]. *)
Variable json_loads : string -> option json.

(** What [_code_chunk] returns or raises for a chunk, the logging apart: the
    service call with its [except OpenAIError] clause, [json.loads] on the
    content with its [except json.JSONDecodeError] clause, and the two loops
    over the decoded value. *)
Definition chunk_outcome (self : app) (chunk : string) : result (list QuoteMatch) :=
  match client self chunk with
  | ServiceError => Raise service_failed
  | Content None =>
      Raise {| exn_kind := TypeError;
               exn_str := "the JSON object must be str, bytes or bytearray, not NoneType" |}
  | Content (Some content) =>
      match json_loads content with
      | None => Raise (not_valid_json content)
      | Some parsed => parse_matches parsed
      end
  end.

Definition _code_chunk (self : app) (chunk : string) : M (list QuoteMatch) :=
  (_log (coding_line chunk) ;;
   matches <- lift (chunk_outcome self chunk) ;;
   _log (received_line (List.length matches)) ;;
   ret matches)%app.

(** [for chunk in chunk_text(paragraphs): matches.extend(self._code_chunk(chunk))] *)
Fixpoint collect_matches (self : app) (chunks : list string)
    (matches : list QuoteMatch) : M (list QuoteMatch) :=
  match chunks with
  | [] => ret matches
  | chunk :: rest =>
      (found <- _code_chunk self chunk ;;
       collect_matches self rest (matches ++ found)%list)%app
  end.

(** The body of the [try] block of [_process_document]. *)
Definition process_body (self : app) : M unit :=
  (_log loading_line ;;
   doc <- load_document (input_path self) ;;
   let paragraphs := extract_paragraphs doc in
   if negb (nonempty paragraphs) then raise no_text
   else
     matches <- collect_matches self (chunk_text paragraphs default_max_chars) [] ;;
     doc <- (if negb (nonempty matches)
             then _log no_excerpts_line ;; ret doc
             else
               r <- lift (_apply_highlights doc matches 0) ;;
               _log (applied_line (snd r)) ;;
               ret (fst r)) ;;
     let doc := _append_legend doc in
     save doc (output_path self) ;;
     _log (saved_line self) ;;
     messagebox (showinfo "Done" "Processing complete!"))%app.

(** [_process_document]: the [try] body, the [except Exception] handler and
    the [finally] clause. *)
Definition _process_document (self : app) (w : world) : world :=
  let '(r, w1) := process_body self w in
  let w2 :=
    match r with
    | Ok _ => w1
    | Raise exc =>
        snd ((messagebox (showerror "Processing failed" (exn_str exc)) ;;
              _log ("ERROR: " ++ exn_str exc))%app w1)
    end in
  set_button true w2.

End Pipeline.

(** ** The response format of the specification

    Section 6 of the specification gives the response as an object with the
    key "matches" holding a list of objects, each with a string under
    "category" and a list of strings under "quotes". *)

(** The eight codes of the taxonomy. *)
Definition taxonomy : list string := ["A"; "B"; "C"; "D"; "E"; "F"; "G"; "H"].

Definition in_taxonomy (code : string) : bool :=
  existsb (fun c => String.eqb c code) taxonomy.

(** A well-formed decoded response, read as its entries: the category and
    the quotes of each object, in response order. *)
Definition item_encodes (j : json) (item : string * list string) : Prop :=
  exists members,
    j = JObject members
    /\ dict_get "category" members = Some (JString (fst item))
    /\ dict_get "quotes" members = Some (JArray (map JString (snd item))).

Definition well_formed (parsed : json) (items : list (string * list string)) : Prop :=
  exists members js,
    parsed = JObject members
    /\ dict_get "matches" members = Some (JArray js)
    /\ Forall2 item_encodes js items.

(** The parsing rules in the specification's words: the category trimmed and
    upper-cased, an entry outside the taxonomy dropped, every quote trimmed,
    an empty one dropped, one match per surviving pair, in response order. *)
Definition spec_matches (items : list (string * list string)) : list QuoteMatch :=
  flat_map (fun item =>
              let code := upper (strip (fst item)) in
              if in_taxonomy code
              then map (fun q => {| category := code; quote := q |})
                       (filter truthy (map strip (snd item)))
              else [])
           items.

(** Whether a decoded value follows that schema. *)
Definition is_string (j : json) : bool :=
  match j with JString _ => true | _ => false end.

Definition item_conforms (j : json) : bool :=
  match j with
  | JObject members =>
      match dict_get "category" members, dict_get "quotes" members with
      | Some (JString _), Some (JArray quotes) => forallb is_string quotes
      | _, _ => false
      end
  | _ => false
  end.

Definition conforms (parsed : json) : bool :=
  match parsed with
  | JObject members =>
      match dict_get "matches" members with
      | Some (JArray items) => forallb item_conforms items
      | _ => false
      end
  | _ => false
  end.

(** ** The pipeline, effect by effect *)

Definition add_log (lines : list string) (w : world) : world :=
  {| log := (log w ++ lines)%list; dialogs := dialogs w;
     disk := disk w; write_error := write_error w;
     button_enabled := button_enabled w |}.

(** The lines [_code_chunk] logs for a chunk. *)
Definition chunk_log (json_loads : string -> option json) (self : app) (chunk : string)
    : list string :=
  coding_line chunk ::
  match chunk_outcome json_loads self chunk with
  | Ok found => [received_line (List.length found)]
  | Raise _ => []
  end.

(** What the loop over the chunks returns or raises, and what it logs. *)
Fixpoint collect_outcome (json_loads : string -> option json) (self : app)
    (chunks : list string) (matches : list QuoteMatch) : result (list QuoteMatch) :=
  match chunks with
  | [] => Ok matches
  | chunk :: rest =>
      match chunk_outcome json_loads self chunk with
      | Ok found => collect_outcome json_loads self rest (matches ++ found)%list
      | Raise e => Raise e
      end
  end.

Fixpoint collect_log (json_loads : string -> option json) (self : app)
    (chunks : list string) : list string :=
  match chunks with
  | [] => []
  | chunk :: rest =>
      (chunk_log json_loads self chunk ++
       match chunk_outcome json_loads self chunk with
       | Ok _ => collect_log json_loads self rest
       | Raise _ => []
       end)%list
  end.

(** The world after the [except] handler and the [finally] clause. *)
Definition failed (exc : exn) (w : world) : world :=
  {| log := (log w ++ [("ERROR: " ++ exn_str exc)%string])%list;
     dialogs := (dialogs w ++ [showerror "Processing failed" (exn_str exc)])%list;
     disk := disk w;
     write_error := write_error w;
     button_enabled := true |}.

(** The world after a run that reached the end of the [try] block: the lines
    logged, the document written to the output path, the closing message box. *)
Definition succeeded (lines : list string) (doc : document) (self : app) (w : world)
    : world :=
  {| log := (log w ++ lines)%list;
     dialogs := (dialogs w ++ [showinfo "Done" "Processing complete!"])%list;
     disk := write_file (disk w) (output_path self) doc;
     write_error := write_error w;
     button_enabled := true |}.

(** ** Concrete inputs for the examples *)

(** The double quote character. *)
Definition dq : string := String "034"%char EmptyString.

Definition quoted (s : string) : string := dq ++ s ++ dq.

(** The response text with one entry: a category and one quote. *)
Definition payload_one (code q : string) : string :=
  "{" ++ quoted "matches" ++ ":[{" ++ quoted "category" ++ ":" ++ quoted code ++ ","
      ++ quoted "quotes" ++ ":[" ++ quoted q ++ "]}]}".

(** The response text with no entry. *)
Definition payload_empty : string := "{" ++ quoted "matches" ++ ":[]}".

(** A response whose "quotes" is a string where the schema has a list. *)
Definition payload_quotes_string : string :=
  "{" ++ quoted "matches" ++ ":[{" ++ quoted "category" ++ ":" ++ quoted "A" ++ ","
      ++ quoted "quotes" ++ ":" ++ quoted "hi" ++ "}]}".

(** The response text with two entries, one quote each. *)
Definition payload_two (code1 q1 code2 q2 : string) : string :=
  "{" ++ quoted "matches" ++ ":[{" ++ quoted "category" ++ ":" ++ quoted code1 ++ ","
      ++ quoted "quotes" ++ ":[" ++ quoted q1 ++ "]},{"
      ++ quoted "category" ++ ":" ++ quoted code2 ++ ","
      ++ quoted "quotes" ++ ":[" ++ quoted q2 ++ "]}]}".

(** A response that is a list where the schema has an object. *)
Definition payload_list : string := "[]".

Definition decoded_one (code q : string) : json :=
  JObject [("matches",
            JArray [JObject [("category", JString code);
                             ("quotes", JArray [JString q])]])].

(** [json.loads] on the response texts of the examples; any other text of the
    examples ("not json") is no JSON document. *)
Definition example_loads (raw : string) : option json :=
  if String.eqb raw (payload_one "a" "Hello world") then Some (decoded_one "a" "Hello world")
  else if String.eqb raw (payload_one "Z" "Hello world") then Some (decoded_one "Z" "Hello world")
  else if String.eqb raw (payload_one "a" "  ") then Some (decoded_one "a" "  ")
  else if String.eqb raw (payload_two "A" "Hello world" "b" "hi there")
       then Some (JObject [("matches",
                            JArray [JObject [("category", JString "A");
                                             ("quotes", JArray [JString "Hello world"])];
                                    JObject [("category", JString "b");
                                             ("quotes", JArray [JString "hi there"])]])])
  else if String.eqb raw payload_empty then Some (JObject [("matches", JArray [])])
  else if String.eqb raw payload_quotes_string
       then Some (JObject [("matches",
                            JArray [JObject [("category", JString "A");
                                             ("quotes", JString "hi")]])])
  else if String.eqb raw payload_list then Some (JArray [])
  else None.

(** An application whose service answers every request with [raw]. *)
Definition example_app (raw : string) : app :=
  {| client := fun _ => Content (Some raw);
     input_path := "in.docx";
     output_path := "out.docx" |}.

(** A world with one document on disk, at the input path, and every path
    writable. *)
Definition example_world (doc : document) : world :=
  {| log := [];
     dialogs := [];
     disk := fun p => if String.eqb p "in.docx" then Some doc else None;
     write_error := fun _ => None;
     button_enabled := false |}.

(** The same world with the output path write-protected. *)
Definition locked_world (doc : document) : world :=
  {| log := [];
     dialogs := [];
     disk := fun p => if String.eqb p "in.docx" then Some doc else None;
     write_error := fun p => if String.eqb p "out.docx"
                             then Some "[Errno 13] Permission denied: 'out.docx'"
                             else None;
     button_enabled := false |}.

Definition plain (text : string) : paragraph := {| content := [Run (new_run text)] |}.

Definition fox_doc : document :=
  [ {| content := [Run (new_run "The quick "); Run (new_run "Brown fox")] |};
    plain "jumps over the lazy dog" ].

Definition hello_doc : document := [plain "Hello world"; plain "hi there"].

(** A paragraph whose whole text sits in a hyperlink: it has text and no run. *)
Definition link_doc : document :=
  [ {| content := [Hyperlink "See the Brown Fox report"] |} ].

(** ** The client configuration ([_build_client]) *)

(** What [AzureOpenAI(...)] is built from. *)
Record client_config := mkConfig {
  api_key : string;
  azure_endpoint : string;
  api_version : string
}.

(** [_build_client] returns the client, raises [EnvironmentError] with a
    message, raises [KeyError] at a lookup in [cleaned], or lets through the
    exception the constructor [AzureOpenAI(...)] raises. *)
Inductive build_result :=
| Built (cfg : client_config)
| EnvironmentError (message : string)
| CleanedKeyError (key : string)
| ConstructorError (message : string).

(** The tuple the loop of [_build_client] runs over. *)
Definition required_vars : list string :=
  ["AZURE_OPENAI_API_KEY"; "AZURE_OPENAI_ENDPOINT"; "AZURE_OPENAI_DEPLOYMENT"].

(** [os.environ.get(var, default)], the environment kept as its items. *)
Definition environ_get (environ : list (string * string)) (var default : string) : string :=
  match dict_get var environ with Some v => v | None => default end.

(** [d[key] = value] *)
Fixpoint dict_set {V : Type} (key : string) (value : V) (d : list (string * V))
    : list (string * V) :=
  match d with
  | [] => [(key, value)]
  | (k, v) :: d' =>
      if String.eqb k key then (k, value) :: d' else (k, v) :: dict_set key value d'
  end.

(** [s.rstrip(c)] for a one-character set. *)
Fixpoint rstrip_char (c : ascii) (s : string) : string :=
  match s with
  | EmptyString => EmptyString
  | String a s' =>
      match rstrip_char c s' with
      | EmptyString => if Ascii.eqb a c then EmptyString else String a EmptyString
      | r => String a r
      end
  end.

(** One iteration of [for var in (...)]: the lists [missing] and [cleaned]. *)
Definition build_step (environ : list (string * string))
    (st : list string * list (string * string)) (var : string)
    : list string * list (string * string) :=
  let raw := strip (environ_get environ var EmptyString) in
  if negb (truthy raw) then ((fst st ++ [var])%list, snd st)
  else (fst st, dict_set var raw (snd st)).

Definition missing_message (missing : list string) : string :=
  "Missing Azure OpenAI environment variables: " ++ join ", " missing.

Definition endpoint_message : string :=
  "AZURE_OPENAI_ENDPOINT must include the full https URL, e.g. "
  ++ "https://my-resource.openai.azure.com".

(** The constructor is a parameter: for the arguments it is given, the
    message of the exception it raises, or [None] when it returns the
    client. *)
Definition _build_client (AzureOpenAI : client_config -> option string)
    (environ : list (string * string)) : build_result :=
  let '(missing, cleaned) := fold_left (build_step environ) required_vars ([], []) in
  if nonempty missing then EnvironmentError (missing_message missing)
  else
    match dict_get "AZURE_OPENAI_ENDPOINT" cleaned with
    | None => CleanedKeyError "AZURE_OPENAI_ENDPOINT"
    | Some e =>
        let endpoint := rstrip_char "/" e in
        if negb (String.prefix "https://" endpoint) then EnvironmentError endpoint_message
        else
          match dict_get "AZURE_OPENAI_API_KEY" cleaned with
          | None => CleanedKeyError "AZURE_OPENAI_API_KEY"
          | Some key =>
              let cfg := {| api_key := key;
                            azure_endpoint := endpoint;
                            api_version := environ_get environ "AZURE_OPENAI_API_VERSION"
                                                       "2024-02-15-preview" |} in
              match AzureOpenAI cfg with
              | Some message => ConstructorError message
              | None => Built cfg
              end
          end
    end.

(** A required variable that is unset or blank. *)
Definition blank (environ : list (string * string)) (var : string) : bool :=
  negb (truthy (strip (environ_get environ var EmptyString))).

(** The last character of a string is [c]. *)
Fixpoint ends_with (c : ascii) (s : string) : bool :=
  match s with
  | EmptyString => false
  | String a EmptyString => Ascii.eqb a c
  | String _ s' => ends_with c s'
  end.

(** ** Further notions for the properties *)

(** Consecutive groups could not have been merged: the first paragraph of a
    group did not fit the counter of the group before it. *)
Fixpoint greedy (max_chars : Z) (gs : list (list string)) : Prop :=
  match gs with
  | g1 :: ((g2 :: _) as rest) =>
      match g2 with
      | p :: _ => max_chars < cost g1 + len p + 1
      | [] => False
      end
      /\ greedy max_chars rest
  | _ => True
  end.

(** A string of ASCII characters only: on such strings [strip], [lower] and
    [upper] are exactly the Python operations. *)
Fixpoint ascii_only (s : string) : bool :=
  match s with
  | EmptyString => true
  | String a s' => (nat_of_ascii a <? 128)%nat && ascii_only s'
  end.

(** The test [highlight_quote] makes on a paragraph, on its text alone. *)
Definition text_matches (quote text : string) : bool :=
  truthy (strip text) && contains (lower (strip quote)) (lower (strip text)).

(** Whether [highlight_quote] finds the quote in the document. *)
Definition quote_found (doc : document) (quote : string) : bool :=
  truthy (strip quote) && existsb (text_matches quote) (map paragraph_text doc).

(** The colors [_apply_highlights] adds to the runs of a paragraph with the
    given text, in the order of the matches. *)
Definition colors_for (text : string) (matches : list QuoteMatch) : list string :=
  flat_map (fun m =>
              if truthy (strip (quote m)) && text_matches (quote m) text
              then match dict_get (category m) CATEGORY_DETAILS with
                   | Some meta => [color meta]
                   | None => []
                   end
              else [])
           matches.

(** A paragraph after its runs were shaded with each of the colors in turn. *)
Definition shade_with (colors : list string) (p : paragraph) : paragraph :=
  fold_left (fun p c => shade_runs c p) colors p.

(** A match as the parser produces them: a code of the taxonomy and a quote
    that is trimmed and not empty. *)
Definition valid_match (m : QuoteMatch) : Prop :=
  in_taxonomy (category m) = true
  /\ quote m <> EmptyString
  /\ strip (quote m) = quote m.

(** An environment with every required variable set, the endpoint with
    blanks around it and slashes at its end. *)
Definition example_environ : list (string * string) :=
  [ ("AZURE_OPENAI_API_KEY", " secret ");
    ("AZURE_OPENAI_ENDPOINT", " https://my-resource.openai.azure.com// ");
    ("AZURE_OPENAI_DEPLOYMENT", "gpt") ].

(** An application whose service call always fails. *)
Definition failing_app : app :=
  {| client := fun _ => ServiceError;
     input_path := "in.docx";
     output_path := "out.docx" |}.

(** A document with blank paragraphs only. *)
Definition blank_doc : document := [plain "   "; plain EmptyString].


(* ------------------------------------------------------------------ *)
(** * Properties *)

(** ** Strings *)

Lemma length_append (a b : string) :
  String.length (a ++ b) = (String.length a + String.length b)%nat.
Proof. induction a as [|c a IH]; simpl; [reflexivity | now rewrite IH]. Qed.

Lemma len_append (a b : string) : len (a ++ b) = len a + len b.
Proof. unfold len. rewrite length_append. lia. Qed.

Lemma len_nonneg (s : string) : 0 <= len s.
Proof. unfold len. lia. Qed.

Lemma join_cons (sep x : string) (y : string) (l : list string) :
  join sep (x :: y :: l) = x ++ sep ++ join sep (y :: l).
Proof. reflexivity. Qed.

Lemma cost_app (l : list string) (p : string) :
  cost (l ++ [p]) = cost l + len p + 1.
Proof. induction l as [|x l IH]; simpl; lia. Qed.

Lemma cost_nonneg (l : list string) : 0 <= cost l.
Proof. induction l as [|x l IH]; simpl; [lia | pose proof (len_nonneg x); lia]. Qed.

(** The counter of the loop is the length of the joined buffer, plus one. *)
Lemma join_cost (l : list string) :
  l <> [] -> len (join nl l) + 1 = cost l.
Proof.
  induction l as [|x l IH]; [congruence | intros _].
  destruct l as [|y l].
  - simpl. lia.
  - change (cost (x :: y :: l)) with (len x + 1 + cost (y :: l)).
    rewrite <- IH by discriminate.
    rewrite join_cons, !len_append. change (len nl) with 1. lia.
Qed.

Lemma split_on_no_sep (c : ascii) (s : string) :
  ~ occurs c s -> split_on c s = [s].
Proof.
  induction s as [|a s IH]; simpl; intros H; [reflexivity|].
  destruct (Ascii.eqb_spec a c) as [->|Hne]; [tauto|].
  rewrite IH by tauto. reflexivity.
Qed.

Lemma split_on_app (c : ascii) (s t : string) :
  ~ occurs c s -> split_on c (s ++ String c t) = s :: split_on c t.
Proof.
  induction s as [|a s IH]; simpl; intros H.
  - now rewrite Ascii.eqb_refl.
  - destruct (Ascii.eqb_spec a c) as [->|Hne]; [tauto|].
    rewrite IH by tauto. reflexivity.
Qed.

(** Splitting a joined group gives the group back when no paragraph holds a
    line break. *)
Lemma split_join (grp : list string) :
  grp <> [] -> Forall no_newline grp -> split_on newline (join nl grp) = grp.
Proof.
  induction grp as [|x l IH]; [congruence | intros _ Hall].
  inversion Hall as [|? ? Hx Hl]; subst.
  destruct l as [|y l].
  - simpl. now apply split_on_no_sep.
  - rewrite join_cons. unfold nl at 1. simpl append.
    rewrite split_on_app by exact Hx. f_equal. apply IH; [discriminate | exact Hl].
Qed.

(** ** The chunker *)

Lemma fold_left_snoc {A B : Type} (f : A -> B -> A) (l : list B) (x : B) (a : A) :
  fold_left f (l ++ [x]) a = f (fold_left f l a) x.
Proof. now rewrite fold_left_app. Qed.

Lemma chunk_loop_snoc (B : Z) (l : list string) (p : string) :
  chunk_loop B (l ++ [p]) = chunk_step B (chunk_loop B l) p.
Proof. apply fold_left_snoc. Qed.

Lemma group_loop_snoc (B : Z) (l : list string) (p : string) :
  group_loop B (l ++ [p]) = group_step B (group_loop B l) p.
Proof. apply fold_left_snoc. Qed.

Lemma chunk_loop_inv (B : Z) (l : list string) :
  chunk_inv B l (chunk_loop B l) (group_loop B l).
Proof.
  induction l as [|p l IH] using rev_ind.
  - constructor; simpl; auto; try congruence.
  - rewrite chunk_loop_snoc, group_loop_snoc.
    destruct IH as [Hc Hb Hcur Hcost Hcat Hne Hfit Hbfit Hst].
    unfold chunk_step, group_step, starts_new_chunk.
    destruct (chunk_loop B l) as [cs bf cur], (group_loop B l) as [gs gb gc].
    simpl in *. subst bf gc cs.
    destruct ((cur + len p + 1 >? B) && nonempty gb) eqn:Hguard.
    + apply andb_prop in Hguard. destruct Hguard as [_ Hbuf].
      assert (Hbne : gb <> []) by (destruct gb; [discriminate | congruence]).
      constructor; simpl.
      * now rewrite map_app.
      * reflexivity.
      * reflexivity.
      * lia.
      * rewrite concat_app. simpl. rewrite app_nil_r, <- Hcat. reflexivity.
      * apply Forall_app. split; [exact Hne | constructor; [exact Hbne | constructor]].
      * apply Forall_app. split; [exact Hfit|]. constructor; [|constructor].
        destruct Hbfit as [He | Hf]; [contradiction | exact Hf].
      * right. right. now exists p.
      * discriminate.
    + constructor; simpl.
      * reflexivity.
      * reflexivity.
      * reflexivity.
      * rewrite cost_app. lia.
      * rewrite <- Hcat, app_assoc. reflexivity.
      * exact Hne.
      * exact Hfit.
      * right. apply andb_false_iff in Hguard. destruct Hguard as [Hle | Hemp].
        -- left. rewrite cost_app, <- Hcost. lia.
        -- right. exists p. destruct gb; [reflexivity | discriminate].
      * intros _. destruct gb; discriminate.
Qed.

(** [chunk_text] joins exactly the groups of [chunk_groups]. *)
Lemma chunk_text_groups (P : list string) (B : Z) :
  chunk_text P B = map (join nl) (chunk_groups P B).
Proof.
  unfold chunk_text, chunk_groups.
  destruct (chunk_loop_inv B P) as [Hc Hb _ _ _ _ _ _ _].
  rewrite <- Hb. destruct (nonempty (buffer (chunk_loop B P))).
  - rewrite map_app, Hc. reflexivity.
  - exact Hc.
Qed.

(** The groups are a partition of the input into consecutive non-empty runs. *)
Lemma chunk_groups_partition (P : list string) (B : Z) :
  concat (chunk_groups P B) = P /\ Forall (fun grp => grp <> []) (chunk_groups P B).
Proof.
  unfold chunk_groups.
  destruct (chunk_loop_inv B P) as [_ _ _ _ Hcat Hne _ _ _].
  destruct (gbuffer (group_loop B P)) as [|x b] eqn:Hbuf; simpl.
  - rewrite app_nil_r in Hcat. auto.
  - split.
    + rewrite concat_app. simpl. now rewrite app_nil_r.
    + apply Forall_app. split; [exact Hne | constructor; [discriminate | constructor]].
Qed.

Lemma chunk_groups_fit (P : list string) (B : Z) :
  Forall (fits B) (chunk_groups P B).
Proof.
  unfold chunk_groups.
  destruct (chunk_loop_inv B P) as [_ _ _ _ _ _ Hfit Hbfit _].
  destruct (gbuffer (group_loop B P)) as [|x b] eqn:Hbuf; simpl; [exact Hfit|].
  apply Forall_app. split; [exact Hfit|]. constructor; [|constructor].
  destruct Hbfit as [He | Hf]; [discriminate | exact Hf].
Qed.

Lemma split_joined_groups (gs : list (list string)) :
  Forall (fun grp => grp <> []) gs ->
  Forall no_newline (concat gs) ->
  flat_map (split_on newline) (map (join nl) gs) = concat gs.
Proof.
  induction gs as [|grp gs IH]; simpl; intros Hne Hnl; [reflexivity|].
  inversion Hne as [|? ? Hg Hgs]; subst.
  apply Forall_app in Hnl. destruct Hnl as [Hnl1 Hnl2].
  rewrite split_join by assumption. f_equal. now apply IH.
Qed.

(** C1, as the claim words it, fails: a paragraph may hold a line break
    inside (a [w:br] of the document reads as a newline character), and
    splitting its chunk on newline then yields two pieces.  Here the single
    non-empty paragraph "a\nb" with budget 10 comes back as "a" and "b". *)
Lemma chunk_text_split_counterexample :
  let P := ["a" ++ nl ++ "b"] in
  Forall (fun p => truthy p = true) P /\ 0 < 10 /\
  chunk_text P 10 = P /\
  flat_map (split_on newline) (chunk_text P 10) = ["a"; "b"] /\
  flat_map (split_on newline) (chunk_text P 10) <> P.
Proof.
  cbv zeta. repeat split; try reflexivity.
  - repeat constructor.
  - discriminate.
Qed.

(** C1 (amended): every chunk of [chunk_text P B] is the newline-join of one
    group of [chunk_groups P B], the groups are non-empty and their
    concatenation is [P] (same paragraphs, same order, none dropped or
    repeated); when no paragraph holds a newline character, splitting every
    chunk on newline and concatenating the pieces gives [P] back; and no
    paragraphs give no chunks. *)
Theorem chunk_text_roundtrip (P : list string) (B : Z) :
  (chunk_text P B = map (join nl) (chunk_groups P B)
   /\ concat (chunk_groups P B) = P
   /\ Forall (fun grp => grp <> []) (chunk_groups P B))
  /\ (Forall no_newline P -> flat_map (split_on newline) (chunk_text P B) = P)
  /\ chunk_text [] B = [].
Proof.
  pose proof (chunk_text_groups P B) as Hg.
  destruct (chunk_groups_partition P B) as [Hcat Hne].
  repeat split; auto.
  intros Hnl. rewrite Hg, split_joined_groups; auto. now rewrite Hcat.
Qed.

Lemma chunk_text_roundtrip_witness :
  Forall no_newline ["short1"; "short2"; "short3"] /\
  flat_map (split_on newline) (chunk_text ["short1"; "short2"; "short3"] 3500)
  = ["short1"; "short2"; "short3"].
Proof.
  assert (H : Forall no_newline ["short1"; "short2"; "short3"]).
  { repeat constructor; unfold no_newline; simpl; intuition discriminate. }
  split; [exact H|].
  exact (proj1 (proj2 (chunk_text_roundtrip ["short1"; "short2"; "short3"] 3500)) H).
Defined.

Lemma fits_budget (B : Z) (grp : list string) :
  grp <> [] -> fits B grp ->
  len (join nl grp) <= B \/ exists p, grp = [p] /\ B < len p.
Proof.
  intros Hne [Hc | [p ->]].
  - left. pose proof (join_cost grp Hne). lia.
  - simpl. destruct (Z_le_gt_dec (len p) B); [left; lia | right; exists p; split; [reflexivity | lia]].
Qed.

(** C3: no chunk of [chunk_text P B] is longer than [B], except a chunk that
    is one single paragraph longer than [B]; and a paragraph longer than [B]
    is alone in its group, so it is a chunk of its own, unsplit.  (Neither
    [B > 0] nor the paragraphs being non-empty is needed.) *)
Theorem chunk_text_budget (P : list string) (B : Z) :
  chunk_text P B = map (join nl) (chunk_groups P B)
  /\ concat (chunk_groups P B) = P
  /\ Forall (fun grp => len (join nl grp) <= B \/ exists p, grp = [p] /\ B < len p)
            (chunk_groups P B)
  /\ Forall (fun c => len c <= B \/ (In c P /\ B < len c)) (chunk_text P B)
  /\ Forall (fun grp => forall p, In p grp -> B < len p -> grp = [p]) (chunk_groups P B).
Proof.
  pose proof (chunk_text_groups P B) as Hg.
  destruct (chunk_groups_partition P B) as [Hcat Hne].
  pose proof (chunk_groups_fit P B) as Hfit.
  assert (Hbud : Forall (fun grp => len (join nl grp) <= B
                                    \/ exists p, grp = [p] /\ B < len p)
                        (chunk_groups P B)).
  { rewrite Forall_forall in *. intros grp Hin. apply fits_budget; auto. }
  repeat split; auto.
  - rewrite Hg, Forall_map. rewrite Forall_forall in *. intros grp Hin.
    destruct (Hbud grp Hin) as [Hle | [p [-> Hp]]]; [now left|].
    right. simpl. split; [|exact Hp].
    rewrite <- Hcat. apply in_concat. exists [p]. split; [exact Hin | now left].
  - rewrite Forall_forall in *. intros grp Hin p Hp Hlong.
    destruct (Hfit grp Hin) as [Hc | [q ->]].
    + exfalso. apply in_split in Hp. destruct Hp as [l1 [l2 ->]].
      assert (Hle : len p + 1 <= cost (l1 ++ p :: l2)).
      { clear. induction l1 as [|x l1 IH]; simpl.
        - pose proof (cost_nonneg l2). lia.
        - pose proof (len_nonneg x). lia. }
      lia.
    + destruct Hp as [-> | []]. reflexivity.
Qed.

(** The two examples of the specification. *)
Example chunk_text_two_long :
  chunk_text [replicate 2000 "a"; replicate 2000 "b"] 3500
  = [replicate 2000 "a"; replicate 2000 "b"].
Proof. vm_compute. reflexivity. Qed.

Example chunk_text_three_short :
  chunk_text ["short1"; "short2"; "short3"] 3500
  = ["short1" ++ nl ++ "short2" ++ nl ++ "short3"].
Proof. reflexivity. Qed.

(** C8, as the claim words it, fails at the boundary: with budget 4, the
    buffer holding "ab" and the next paragraph "c", the joined text "ab\nc"
    has length 4, which does not exceed the budget, and yet the loop closes
    the chunk and starts a new one. *)
Lemma chunk_boundary_counterexample :
  let st := chunk_loop 4 ["ab"] in
  nonempty (buffer st) = true /\
  len (join nl (buffer st ++ ["c"])) = 4 /\
  starts_new_chunk 4 st "c" = true /\
  chunk_text ["ab"; "c"] 4 = ["ab"; "c"] /\
  chunk_text ["ab"; "c"] 4 <> ["ab" ++ nl ++ "c"].
Proof.
  cbv zeta. repeat split; try reflexivity. discriminate.
Qed.

(** C8 (amended): at every point of the loop, a new chunk begins exactly when
    the buffer is non-empty and the length of the joined buffer with the next
    paragraph appended, plus one, exceeds the budget (the counter charges one
    separator for every paragraph, the last one too); otherwise the paragraph
    is added to the current buffer. *)
Theorem chunk_boundary (B : Z) (pre : list string) (para : string) :
  let st := chunk_loop B pre in
  (starts_new_chunk B st para = true
   <-> buffer st <> [] /\ B < len (join nl (buffer st ++ [para])) + 1)
  /\ chunk_step B st para =
     if starts_new_chunk B st para
     then {| chunks := chunks st ++ [join nl (buffer st)];
             buffer := [para];
             current := len para + 1 |}
     else {| chunks := chunks st;
             buffer := buffer st ++ [para];
             current := current st + len para + 1 |}.
Proof.
  cbv zeta. split.
  - destruct (chunk_loop_inv B pre) as [_ _ _ Hcost _ _ _ _ _].
    unfold starts_new_chunk. rewrite andb_true_iff, Z.gtb_lt.
    assert (Hj : len (join nl (buffer (chunk_loop B pre) ++ [para])) + 1
                 = current (chunk_loop B pre) + len para + 1).
    { rewrite join_cost by (destruct (buffer (chunk_loop B pre)); discriminate).
      rewrite cost_app, <- Hcost. reflexivity. }
    rewrite Hj.
    destruct (buffer (chunk_loop B pre)); simpl; split; intros [H1 H2];
      (split; [lia || congruence || discriminate | lia || congruence || discriminate]).
  - unfold chunk_step. destruct (starts_new_chunk B (chunk_loop B pre) para); reflexivity.
Qed.

(** ** Shading a run *)

Lemma truthy_true (s : string) : truthy s = true <-> s <> EmptyString.
Proof. destruct s; simpl; split; congruence. Qed.

Lemma apply_shading_text (r : run) (color_hex : string) :
  r_text (apply_shading r color_hex) = r_text r.
Proof. reflexivity. Qed.

Lemma highlight_is_no_shading (child : element) :
  String.eqb (tag child) (qn "w:highlight") = true ->
  String.eqb (tag child) (qn "w:shd") = false.
Proof.
  intros H. apply String.eqb_eq in H. rewrite H. reflexivity.
Qed.

(** Every call adds one shading value and removes none. *)
Lemma shadings_apply_shading (r : run) (color_hex : string) :
  shadings (apply_shading r color_hex) = (shadings r ++ [color_hex])%list.
Proof.
  unfold shadings, apply_shading, get_or_add_rPr at 1. simpl rPr. cbv beta iota.
  rewrite flat_map_app. f_equal.
  induction (get_or_add_rPr r) as [|child l IH]; simpl; [reflexivity|].
  destruct (String.eqb (tag child) (qn "w:highlight")) eqn:Hh; simpl.
  - rewrite (highlight_is_no_shading child Hh). exact IH.
  - now rewrite IH.
Qed.

(** C2, evaluated on the code: [apply_shading] removes the [w:highlight]
    children of the run properties and appends a [w:shd]; a [w:shd] it
    appended before stays.  A fresh run shaded with the color of category A
    and then with the color of category B carries both values; shading any
    run twice leaves two more values than it had; and highlighting the same
    quote a second time leaves every run of the marked paragraph with two
    shading values. *)
Theorem apply_shading_twice_layers :
  shadings (apply_shading (apply_shading (new_run "text") "FFF2CC") "DAEEF3")
  = ["FFF2CC"; "DAEEF3"]
  /\ (forall r c1 c2,
        shadings (apply_shading (apply_shading r c1) c2) = (shadings r ++ [c1; c2])%list)
  /\ (forall r c,
        List.length (shadings (apply_shading (apply_shading r c) c))
        = S (S (List.length (shadings r))))
  /\ (let once := fst (highlight_quote fox_doc "brown fox" "DAEEF3") in
      let twice := fst (highlight_quote once "brown fox" "DAEEF3") in
      map (fun p => map shadings (paragraph_runs p)) twice
      = [[["DAEEF3"; "DAEEF3"]; ["DAEEF3"; "DAEEF3"]]; [[]]]).
Proof.
  split; [reflexivity|]. split; [|split].
  - intros r c1 c2. rewrite !shadings_apply_shading, <- app_assoc. reflexivity.
  - intros r c. rewrite !shadings_apply_shading, !length_app. simpl. lia.
  - reflexivity.
Qed.

(** ** The highlighter *)

Lemma shade_runs_text (color_hex : string) (p : paragraph) :
  paragraph_text (shade_runs color_hex p) = paragraph_text p.
Proof.
  unfold paragraph_text, shade_runs. simpl. f_equal.
  rewrite map_map. apply map_ext. intros [r | t]; reflexivity.
Qed.

Lemma shade_runs_runs (color_hex : string) (p : paragraph) :
  paragraph_runs (shade_runs color_hex p)
  = map (fun r => apply_shading r color_hex) (paragraph_runs p).
Proof.
  unfold paragraph_runs, shade_runs. simpl.
  induction (content p) as [|[r | t] l IH]; simpl; [reflexivity | now rewrite IH | exact IH].
Qed.

Lemma shade_runs_no_runs (color_hex : string) (p : paragraph) :
  paragraph_runs p = [] -> shade_runs color_hex p = p.
Proof.
  destruct p as [c]. unfold paragraph_runs, shade_runs. simpl. intros H. f_equal.
  induction c as [|[r | t] l IH]; simpl in *; [reflexivity | discriminate | now rewrite IH].
Qed.

Lemma highlight_loop (quote color_hex : string) (doc acc : document) (b : bool) :
  fold_left (highlight_step (lower (strip quote)) color_hex) doc (acc, b)
  = ((acc ++ map (mark quote color_hex) doc)%list,
     b || existsb (paragraph_matches quote) doc).
Proof.
  revert acc b. induction doc as [|p doc IH]; intros acc b; simpl.
  - now rewrite app_nil_r, orb_false_r.
  - unfold highlight_step at 2, mark at 1, paragraph_matches at 1 2. simpl fst. simpl snd.
    destruct (truthy (strip (paragraph_text p))); simpl.
    + destruct (contains (lower (strip quote)) (lower (strip (paragraph_text p)))); simpl;
        rewrite IH, <- app_assoc; simpl; [now rewrite orb_true_r | reflexivity].
    + rewrite IH, <- app_assoc. reflexivity.
Qed.

Lemma highlight_quote_eq (doc : document) (quote color_hex : string) :
  strip quote <> EmptyString ->
  highlight_quote doc quote color_hex
  = (map (mark quote color_hex) doc, existsb (paragraph_matches quote) doc).
Proof.
  intros H. apply truthy_true in H. unfold highlight_quote. rewrite H. simpl.
  now rewrite highlight_loop.
Qed.

Lemma mark_text (quote color_hex : string) (p : paragraph) :
  paragraph_text (mark quote color_hex p) = paragraph_text p.
Proof. unfold mark. destruct (paragraph_matches quote p); [apply shade_runs_text | reflexivity]. Qed.

(** Highlighting never changes the text of a paragraph. *)
Lemma highlight_quote_text (doc : document) (quote color_hex : string) :
  map paragraph_text (fst (highlight_quote doc quote color_hex)) = map paragraph_text doc.
Proof.
  destruct (string_dec (strip quote) EmptyString) as [He | Hne].
  - unfold highlight_quote. rewrite He. reflexivity.
  - rewrite highlight_quote_eq by exact Hne. simpl. rewrite map_map.
    apply map_ext. intros p. apply mark_text.
Qed.

Lemma apply_shading_changes (r : run) (color_hex : string) :
  apply_shading r color_hex <> r.
Proof.
  intros H. pose proof (shadings_apply_shading r color_hex) as Hs.
  rewrite H in Hs. apply (f_equal (@List.length string)) in Hs.
  rewrite length_app in Hs. simpl in Hs. lia.
Qed.

Lemma shade_runs_changes (color_hex : string) (p : paragraph) :
  paragraph_runs p <> [] -> shade_runs color_hex p <> p.
Proof.
  intros Hruns H. pose proof (shade_runs_runs color_hex p) as Hr. rewrite H in Hr.
  destruct (paragraph_runs p) as [|r rs]; [congruence|].
  simpl in Hr. injection Hr as Hhead _.
  exact (apply_shading_changes r color_hex (eq_sym Hhead)).
Qed.

Lemma map_fixed {A : Type} (f : A -> A) (l : list A) :
  map f l = l -> forall x, In x l -> f x = x.
Proof.
  induction l as [|a l IH]; simpl; intros H x Hx; [contradiction|].
  injection H as Ha Hl. destruct Hx as [<- | Hx]; [exact Ha | now apply IH].
Qed.

(** The document comes back changed exactly when some matching paragraph has
    a run. *)
Lemma marked_iff (quote color_hex : string) (doc : document) :
  map (mark quote color_hex) doc <> doc
  <-> exists p, In p doc /\ paragraph_matches quote p = true /\ paragraph_runs p <> [].
Proof.
  split.
  - induction doc as [|p doc IH]; simpl; intros H; [congruence|].
    destruct (paragraph_matches quote p) eqn:Hp.
    + destruct (paragraph_runs p) as [|r rs] eqn:Hr.
      * assert (Hsame : mark quote color_hex p = p)
          by (unfold mark; rewrite Hp; now apply shade_runs_no_runs).
        destruct IH as [p' [Hin Hp']]; [intros Hd; apply H; congruence|].
        exists p'. split; [now right | exact Hp'].
      * exists p. split; [now left|]. split; [exact Hp | rewrite Hr; discriminate].
    + assert (Hsame : mark quote color_hex p = p) by (unfold mark; now rewrite Hp).
      destruct IH as [p' [Hin Hp']]; [intros Hd; apply H; congruence|].
      exists p'. split; [now right | exact Hp'].
  - intros [p [Hin [Hp Hr]]] H.
    pose proof (map_fixed (mark quote color_hex) doc H p Hin) as Hfix.
    unfold mark in Hfix. rewrite Hp in Hfix.
    now apply shade_runs_changes in Hfix.
Qed.

(** C4, as the claim words it, fails when the matching paragraph has no run:
    the text of the paragraph below sits in a hyperlink, "brown fox" is in
    it, the call returns true, and no paragraph was marked: the document
    comes back as it was and no run carries a shading value. *)
Lemma highlight_true_unmarked_counterexample :
  let after := highlight_quote link_doc "brown fox" "DAEEF3" in
  strip "brown fox" <> EmptyString
  /\ dict_get "B" CATEGORY_DETAILS
     = Some {| title := "Feasibility & Practical Implementation"; color := "DAEEF3" |}
  /\ snd after = true
  /\ fst after = link_doc
  /\ flat_map (fun p => flat_map shadings (paragraph_runs p)) (fst after) = [].
Proof.
  cbv zeta. split; [discriminate|]. repeat split; reflexivity.
Qed.

(** C4 (amended): for a quote that is non-empty once trimmed,
    [highlight_quote] shades with the given color every run of every
    paragraph whose non-empty trimmed text contains the trimmed quote
    case-insensitively, leaves every other paragraph as it was, and returns
    true exactly when some paragraph matched; with no matching paragraph the
    document comes back unchanged with [false].  Something is marked (the
    document comes back changed) exactly when a matching paragraph has a
    run, so true is returned with nothing marked when the matching
    paragraphs have no run.  [_apply_highlights] calls it with the color of
    the match's category. *)
Theorem highlight_quote_contract (doc : document) (m : QuoteMatch) (meta : category_meta)
    (Hquote : strip (quote m) <> EmptyString)
    (Hcat : dict_get (category m) CATEGORY_DETAILS = Some meta) :
  let after := highlight_quote doc (quote m) (color meta) in
  fst after = map (mark (quote m) (color meta)) doc
  /\ snd after = existsb (paragraph_matches (quote m)) doc
  /\ (snd after = true <-> exists p, In p doc /\ paragraph_matches (quote m) p = true)
  /\ (forall p, paragraph_matches (quote m) p = true ->
        paragraph_runs (mark (quote m) (color meta) p)
        = map (fun r => apply_shading r (color meta)) (paragraph_runs p)
        /\ Forall (fun r => exists before, shadings r = (before ++ [color meta])%list)
                  (paragraph_runs (mark (quote m) (color meta) p)))
  /\ (forall p, paragraph_matches (quote m) p = false -> mark (quote m) (color meta) p = p)
  /\ (existsb (paragraph_matches (quote m)) doc = false -> after = (doc, false))
  /\ _apply_highlights doc [m] 0 = Ok (fst after, if snd after then 1%nat else 0%nat)
  /\ (fst after <> doc
      <-> exists p, In p doc /\ paragraph_matches (quote m) p = true
                    /\ paragraph_runs p <> []).
Proof.
  cbv zeta. rewrite highlight_quote_eq by exact Hquote. simpl fst. simpl snd.
  split; [reflexivity|]. split; [reflexivity|]. split.
  { rewrite existsb_exists. reflexivity. }
  split.
  { intros p Hp. unfold mark. rewrite Hp. rewrite shade_runs_runs. split; [reflexivity|].
    apply Forall_map. apply Forall_forall. intros r _.
    exists (shadings r). apply shadings_apply_shading. }
  split.
  { intros p Hp. unfold mark. now rewrite Hp. }
  split.
  { intros Hnone. f_equal; [|exact Hnone].
    rewrite <- (map_id doc) at 2. apply map_ext_in. intros p Hin.
    unfold mark. destruct (paragraph_matches (quote m) p) eqn:Hp; [|reflexivity].
    exfalso. assert (Hex : existsb (paragraph_matches (quote m)) doc = true)
      by (apply existsb_exists; now exists p).
    congruence. }
  split; [|apply marked_iff].
  cbn [_apply_highlights]. rewrite Hcat.
  rewrite highlight_quote_eq by exact Hquote. reflexivity.
Qed.

(** The example of the specification: "brown fox" marks the paragraph "The
    quick Brown fox", both of its runs, and nothing else. *)
Lemma highlight_quote_contract_witness :
  let m := {| category := "B"; quote := "brown fox" |} in
  let after := highlight_quote fox_doc (quote m) "DAEEF3" in
  strip (quote m) <> EmptyString
  /\ dict_get (category m) CATEGORY_DETAILS
     = Some {| title := "Feasibility & Practical Implementation"; color := "DAEEF3" |}
  /\ snd after = true
  /\ map (fun p => map shadings (paragraph_runs p)) (fst after)
     = [[["DAEEF3"]; ["DAEEF3"]]; [[]]]
  /\ _apply_highlights fox_doc [m] 0 = Ok (fst after, 1%nat).
Proof.
  cbv zeta.
  assert (Hq : strip "brown fox" <> EmptyString) by discriminate.
  pose proof (highlight_quote_contract fox_doc
                {| category := "B"; quote := "brown fox" |}
                {| title := "Feasibility & Practical Implementation"; color := "DAEEF3" |}
                Hq eq_refl) as H.
  cbv zeta in H. simpl quote in H. simpl color in H.
  destruct H as [_ [_ [_ [_ [_ [_ [H _]]]]]]].
  split; [exact Hq|]. split; [reflexivity|].
  split; [reflexivity|]. split; [reflexivity|]. exact H.
Defined.

(** The other half of the example: "blue fox" is in no paragraph, nothing is
    marked and the call returns false. *)
Example highlight_quote_blue_fox :
  highlight_quote fox_doc "blue fox" "DAEEF3" = (fox_doc, false).
Proof. reflexivity. Qed.

(** C10: when a paragraph that matches the quote has no run (its text sits in
    a hyperlink), [highlight_quote] returns true; such a paragraph is not
    changed, and when every matching paragraph is of that kind the whole
    document is unchanged.  A true result only says that some paragraph
    matched. *)
Theorem highlight_quote_true_without_runs (doc : document) (quote color_hex : string)
    (p : paragraph)
    (Hquote : strip quote <> EmptyString)
    (Hin : In p doc)
    (Hruns : paragraph_runs p = [])
    (Hmatch : paragraph_matches quote p = true) :
  snd (highlight_quote doc quote color_hex) = true
  /\ mark quote color_hex p = p
  /\ ((forall p', In p' doc -> paragraph_matches quote p' = true -> paragraph_runs p' = []) ->
      fst (highlight_quote doc quote color_hex) = doc)
  /\ (forall doc', snd (highlight_quote doc' quote color_hex) = true ->
        exists p', In p' doc' /\ paragraph_matches quote p' = true).
Proof.
  rewrite highlight_quote_eq by exact Hquote. simpl fst. simpl snd.
  split; [apply existsb_exists; now exists p|].
  split; [unfold mark; rewrite Hmatch; now apply shade_runs_no_runs|].
  split.
  - intros Hall. rewrite <- (map_id doc) at 2. apply map_ext_in. intros p' Hin'.
    unfold mark. destruct (paragraph_matches quote p') eqn:Hp'; [|reflexivity].
    apply shade_runs_no_runs. now apply Hall.
  - intros doc'. rewrite highlight_quote_eq by exact Hquote. simpl.
    intros H. apply existsb_exists in H. exact H.
Qed.

Lemma highlight_quote_true_without_runs_witness :
  let p := {| content := [Hyperlink "See the Brown Fox report"] |} in
  strip "brown fox" <> EmptyString
  /\ In p link_doc
  /\ paragraph_runs p = []
  /\ paragraph_matches "brown fox" p = true
  /\ highlight_quote link_doc "brown fox" "DAEEF3" = (link_doc, true).
Proof.
  cbv zeta.
  assert (Hq : strip "brown fox" <> EmptyString) by discriminate.
  assert (Hin : In {| content := [Hyperlink "See the Brown Fox report"] |} link_doc)
    by now left.
  pose proof (highlight_quote_true_without_runs link_doc "brown fox" "DAEEF3"
                {| content := [Hyperlink "See the Brown Fox report"] |}
                Hq Hin eq_refl eq_refl) as [H1 [_ [H3 _]]].
  split; [exact Hq|]. split; [exact Hin|]. split; [reflexivity|]. split; [reflexivity|].
  rewrite (surjective_pairing (highlight_quote link_doc "brown fox" "DAEEF3")).
  rewrite H1, H3; [reflexivity|].
  intros p' [<- | []] _. reflexivity.
Defined.

(** ** Response parsing *)

Lemma dict_mem_taxonomy (code : string) :
  dict_mem code CATEGORY_DETAILS = in_taxonomy code.
Proof.
  unfold dict_mem, in_taxonomy, CATEGORY_DETAILS, taxonomy.
  cbn [dict_get existsb].
  repeat (destruct (String.eqb _ code); [reflexivity|]). reflexivity.
Qed.

Lemma quotes_loop_strings (code : string) (qs : list string) (acc : list QuoteMatch) :
  quotes_loop code (map JString qs) acc
  = Ok (acc ++ map (fun q => {| category := code; quote := q |})
                   (filter truthy (map strip qs)))%list.
Proof.
  revert acc. induction qs as [|q qs IH]; intros acc; cbn [map quotes_loop filter].
  - now rewrite app_nil_r.
  - assert (Hs : py_strip (if json_truthy (JString q) then JString q else JString EmptyString)
                 = Ok (strip q)) by (destruct q; reflexivity).
    rewrite Hs. cbn [rbind]. rewrite IH.
    destruct (truthy (strip q)); [|reflexivity].
    now rewrite <- app_assoc.
Qed.

Lemma items_loop_well_formed (js : list json) (items : list (string * list string))
    (acc : list QuoteMatch) :
  Forall2 item_encodes js items ->
  items_loop js acc = Ok (acc ++ spec_matches items)%list.
Proof.
  intros H. revert acc. induction H as [|j item js items Hj _ IH]; intros acc.
  - simpl. now rewrite app_nil_r.
  - destruct Hj as [members [-> [Hc Hq]]].
    cbn [items_loop py_get]. rewrite Hc. cbn [rbind py_strip].
    rewrite dict_mem_taxonomy. unfold spec_matches. cbn [flat_map].
    fold (spec_matches items).
    destruct (in_taxonomy (upper (strip (fst item)))); cbn [negb].
    + rewrite Hq. cbn [rbind py_iter]. rewrite quotes_loop_strings. cbn [rbind].
      rewrite IH, <- app_assoc. reflexivity.
    + rewrite IH. reflexivity.
Qed.

Lemma parse_matches_well_formed (parsed : json) (items : list (string * list string)) :
  well_formed parsed items -> parse_matches parsed = Ok (spec_matches items).
Proof.
  intros [members [js [-> [Hm Hjs]]]].
  unfold parse_matches. cbn [py_get]. rewrite Hm. cbn [rbind py_iter].
  now rewrite items_loop_well_formed with (items := items).
Qed.

Lemma spec_matches_valid (items : list (string * list string)) :
  Forall (fun m => in_taxonomy (category m) = true
                   /\ quote m <> EmptyString
                   /\ exists item q, In item items /\ In q (snd item)
                                     /\ category m = upper (strip (fst item))
                                     /\ quote m = strip q)
         (spec_matches items).
Proof.
  apply Forall_forall. intros m Hm. unfold spec_matches in Hm.
  apply in_flat_map in Hm. destruct Hm as [item [Hitem Hm]].
  destruct (in_taxonomy (upper (strip (fst item)))) eqn:Hcode; [|destruct Hm].
  apply in_map_iff in Hm. destruct Hm as [q' [<- Hq']].
  apply filter_In in Hq'. destruct Hq' as [Hq' Hne].
  apply in_map_iff in Hq'. destruct Hq' as [q [<- Hq]].
  simpl. split; [exact Hcode|]. split; [now apply truthy_true|].
  exists item, q. auto.
Qed.

(** ** The pipeline *)

Lemma add_log_app (l1 l2 : list string) (w : world) :
  add_log l2 (add_log l1 w) = add_log (l1 ++ l2) w.
Proof. unfold add_log. simpl. now rewrite <- app_assoc. Qed.

Lemma add_log_nil (w : world) : add_log [] w = w.
Proof. destruct w. unfold add_log. simpl. now rewrite app_nil_r. Qed.

Lemma log_is_add_log (line : string) (w : world) : _log line w = (Ok tt, add_log [line] w).
Proof. reflexivity. Qed.

Section PipelineFacts.

Variable json_loads : string -> option json.
Variable self : app.

Lemma code_chunk_eq (chunk : string) (w : world) :
  _code_chunk json_loads self chunk w
  = (chunk_outcome json_loads self chunk, add_log (chunk_log json_loads self chunk) w).
Proof.
  unfold _code_chunk, chunk_log, bind, lift, ret. rewrite log_is_add_log.
  fold (coding_line chunk).
  destruct (chunk_outcome json_loads self chunk) as [found | e]; [|reflexivity].
  rewrite log_is_add_log, add_log_app. reflexivity.
Qed.

Lemma collect_matches_eq (chunks : list string) (acc : list QuoteMatch) (w : world) :
  collect_matches json_loads self chunks acc w
  = (collect_outcome json_loads self chunks acc,
     add_log (collect_log json_loads self chunks) w).
Proof.
  revert acc w. induction chunks as [|chunk rest IH]; intros acc w.
  - simpl. unfold ret. now rewrite add_log_nil.
  - cbn [collect_matches collect_outcome collect_log]. unfold bind.
    rewrite code_chunk_eq.
    destruct (chunk_outcome json_loads self chunk) as [found | e] eqn:Hout.
    + rewrite IH, add_log_app. reflexivity.
    + now rewrite app_nil_r.
Qed.

End PipelineFacts.

(** C5: for a well-formed decoded response, [_code_chunk] returns exactly the
    matches of the specification's rules (category trimmed and upper-cased,
    entries outside A-H dropped without an error, quotes trimmed, empty ones
    dropped, one match per surviving pair, in response order), and logs their
    number. *)
Theorem code_chunk_parses (json_loads : string -> option json) (self : app)
    (chunk raw : string) (parsed : json) (items : list (string * list string)) (w : world)
    (Hreply : client self chunk = Content (Some raw))
    (Hdecoded : json_loads raw = Some parsed)
    (Hshape : well_formed parsed items) :
  parse_matches parsed = Ok (spec_matches items)
  /\ _code_chunk json_loads self chunk w
     = (Ok (spec_matches items),
        add_log [coding_line chunk; received_line (List.length (spec_matches items))] w)
  /\ Forall (fun m => in_taxonomy (category m) = true
                      /\ quote m <> EmptyString
                      /\ exists item q, In item items /\ In q (snd item)
                                        /\ category m = upper (strip (fst item))
                                        /\ quote m = strip q)
            (spec_matches items).
Proof.
  pose proof (parse_matches_well_formed parsed items Hshape) as Hp.
  split; [exact Hp|]. split; [|apply spec_matches_valid].
  rewrite code_chunk_eq. unfold chunk_log, chunk_outcome.
  rewrite Hreply, Hdecoded, Hp. reflexivity.
Qed.

(** The first example of the specification: category "a" with the quote
    "Hello world" gives one match, normalized to "A". *)
Lemma code_chunk_parses_witness :
  well_formed (decoded_one "a" "Hello world") [("a", ["Hello world"])]
  /\ fst (_code_chunk example_loads (example_app (payload_one "a" "Hello world"))
                      "Hello world" (example_world hello_doc))
     = Ok [{| category := "A"; quote := "Hello world" |}].
Proof.
  assert (Hwf : well_formed (decoded_one "a" "Hello world") [("a", ["Hello world"])]).
  { eexists _, _. split; [reflexivity|]. split; [reflexivity|].
    constructor; [|constructor]. eexists. split; [reflexivity|]. split; reflexivity. }
  split; [exact Hwf|].
  destruct (code_chunk_parses example_loads (example_app (payload_one "a" "Hello world"))
              "Hello world" (payload_one "a" "Hello world")
              (decoded_one "a" "Hello world") [("a", ["Hello world"])]
              (example_world hello_doc) eq_refl eq_refl Hwf) as [_ [H _]].
  rewrite H. reflexivity.
Defined.

(** The other examples: a category outside the taxonomy, and a quote of
    blanks only, give no match and no error. *)
Example code_chunk_unknown_category :
  chunk_outcome example_loads (example_app (payload_one "Z" "Hello world")) "Hello world"
  = Ok []
  /\ chunk_outcome example_loads (example_app (payload_one "a" "  ")) "Hello world"
     = Ok [].
Proof. split; reflexivity. Qed.

(** Symbolic execution of [_process_document] up to the load of the
    document, and up to the loop over the chunks. *)
Ltac run_to_load :=
  unfold _process_document, process_body, bind; rewrite log_is_add_log;
  unfold load_document; cbn [add_log disk].

Ltac run_to_chunks Hdisk Hne :=
  run_to_load; rewrite Hdisk;
  destruct (extract_paragraphs _) as [|? ?] eqn:?; [congruence|];
  cbn [nonempty negb].

Section ProcessDocument.

Variable json_loads : string -> option json.
Variable self : app.
Variable w : world.
Variable doc : document.
Hypothesis on_disk : disk w (input_path self) = Some doc.

Lemma process_no_text :
  extract_paragraphs doc = [] ->
  _process_document json_loads self w = failed no_text (add_log [loading_line] w).
Proof.
  intros He.
  run_to_load. rewrite on_disk, He. reflexivity.
Qed.

Lemma process_collect_fails (e : exn) :
  extract_paragraphs doc <> [] ->
  collect_outcome json_loads self
    (chunk_text (extract_paragraphs doc) default_max_chars) [] = Raise e ->
  _process_document json_loads self w
  = failed e (add_log (loading_line
                       :: collect_log json_loads self
                            (chunk_text (extract_paragraphs doc) default_max_chars)) w).
Proof.
  intros Hne Hout.
  run_to_chunks on_disk Hne. rewrite collect_matches_eq, Hout.
  unfold failed, add_log, set_button, messagebox, _log. simpl.
  rewrite <- !app_assoc. reflexivity.
Qed.

Lemma process_no_matches :
  extract_paragraphs doc <> [] ->
  collect_outcome json_loads self
    (chunk_text (extract_paragraphs doc) default_max_chars) [] = Ok [] ->
  write_error w (output_path self) = None ->
  _process_document json_loads self w
  = succeeded (loading_line
               :: collect_log json_loads self
                    (chunk_text (extract_paragraphs doc) default_max_chars)
               ++ [no_excerpts_line; saved_line self])%list
              (_append_legend doc) self w.
Proof.
  intros Hne Hout Hw.
  run_to_chunks on_disk Hne. rewrite collect_matches_eq, Hout.
  unfold succeeded, add_log, set_button, messagebox, _log, save, ret. simpl.
  rewrite Hw. simpl. rewrite <- !app_assoc. reflexivity.
Qed.

Lemma process_no_matches_save_fails (message : string) :
  extract_paragraphs doc <> [] ->
  collect_outcome json_loads self
    (chunk_text (extract_paragraphs doc) default_max_chars) [] = Ok [] ->
  write_error w (output_path self) = Some message ->
  _process_document json_loads self w
  = failed {| exn_kind := OSError; exn_str := message |}
           (add_log (loading_line
                     :: collect_log json_loads self
                          (chunk_text (extract_paragraphs doc) default_max_chars)
                     ++ [no_excerpts_line])%list w).
Proof.
  intros Hne Hout Hw.
  run_to_chunks on_disk Hne. rewrite collect_matches_eq, Hout.
  unfold failed, add_log, set_button, messagebox, _log, save, ret. simpl.
  rewrite Hw. simpl. rewrite <- !app_assoc. simpl. rewrite <- ?app_assoc. reflexivity.
Qed.

Lemma process_with_matches (m : QuoteMatch) (ms : list QuoteMatch)
    (doc' : document) (n : nat) :
  extract_paragraphs doc <> [] ->
  collect_outcome json_loads self
    (chunk_text (extract_paragraphs doc) default_max_chars) [] = Ok (m :: ms) ->
  _apply_highlights doc (m :: ms) 0 = Ok (doc', n) ->
  write_error w (output_path self) = None ->
  _process_document json_loads self w
  = succeeded (loading_line
               :: collect_log json_loads self
                    (chunk_text (extract_paragraphs doc) default_max_chars)
               ++ [applied_line n; saved_line self])%list
              (_append_legend doc') self w.
Proof.
  intros Hne Hout Happ Hw.
  run_to_chunks on_disk Hne. rewrite collect_matches_eq, Hout.
  cbn [nonempty negb]. unfold lift. rewrite Happ.
  unfold succeeded, add_log, set_button, messagebox, _log, save, ret. simpl.
  rewrite Hw. simpl. rewrite <- !app_assoc. reflexivity.
Qed.

Lemma process_with_matches_save_fails (m : QuoteMatch) (ms : list QuoteMatch)
    (doc' : document) (n : nat) (message : string) :
  extract_paragraphs doc <> [] ->
  collect_outcome json_loads self
    (chunk_text (extract_paragraphs doc) default_max_chars) [] = Ok (m :: ms) ->
  _apply_highlights doc (m :: ms) 0 = Ok (doc', n) ->
  write_error w (output_path self) = Some message ->
  _process_document json_loads self w
  = failed {| exn_kind := OSError; exn_str := message |}
           (add_log (loading_line
                     :: collect_log json_loads self
                          (chunk_text (extract_paragraphs doc) default_max_chars)
                     ++ [applied_line n])%list w).
Proof.
  intros Hne Hout Happ Hw.
  run_to_chunks on_disk Hne. rewrite collect_matches_eq, Hout.
  cbn [nonempty negb]. unfold lift. rewrite Happ.
  unfold failed, add_log, set_button, messagebox, _log, save, ret. simpl.
  rewrite Hw. simpl. rewrite <- !app_assoc. simpl. rewrite <- ?app_assoc. reflexivity.
Qed.

Lemma process_highlight_fails (m : QuoteMatch) (ms : list QuoteMatch) (e : exn) :
  extract_paragraphs doc <> [] ->
  collect_outcome json_loads self
    (chunk_text (extract_paragraphs doc) default_max_chars) [] = Ok (m :: ms) ->
  _apply_highlights doc (m :: ms) 0 = Raise e ->
  _process_document json_loads self w
  = failed e (add_log (loading_line
                       :: collect_log json_loads self
                            (chunk_text (extract_paragraphs doc) default_max_chars)) w).
Proof.
  intros Hne Hout Happ.
  run_to_chunks on_disk Hne. rewrite collect_matches_eq, Hout.
  cbn [nonempty negb]. unfold lift. rewrite Happ.
  unfold failed, add_log, set_button, messagebox, _log. simpl.
  rewrite <- !app_assoc. reflexivity.
Qed.

End ProcessDocument.

Lemma process_load_fails (json_loads : string -> option json) (self : app) (w : world) :
  disk w (input_path self) = None ->
  exists e, _process_document json_loads self w = failed e (add_log [loading_line] w).
Proof.
  intros Hd. eexists.
  run_to_load. rewrite Hd. reflexivity.
Qed.

Lemma append_legend_eq (doc : document) :
  _append_legend doc = (doc ++ legend_block)%list.
Proof.
  unfold _append_legend, legend_block. simpl. rewrite <- !app_assoc. reflexivity.
Qed.

Lemma apply_highlights_text (ms : list QuoteMatch) :
  forall (doc doc' : document) (n k : nat),
    _apply_highlights doc ms n = Ok (doc', k) ->
    map paragraph_text doc' = map paragraph_text doc.
Proof.
  induction ms as [|m ms IH]; intros doc doc' n k H; cbn [_apply_highlights] in H.
  - now inversion H.
  - destruct (dict_get (category m) CATEGORY_DETAILS) as [meta|]; [|discriminate].
    pose proof (highlight_quote_text doc (quote m) (color meta)) as Ht.
    destruct (highlight_quote doc (quote m) (color meta)) as [doc1 hit].
    apply IH in H. simpl in Ht. congruence.
Qed.

(** The loop over the chunks stops at the first chunk that raises. *)
Lemma collect_outcome_first_failure (json_loads : string -> option json) (self : app)
    (pre post : list string) (chunk : string) (e : exn) :
  Forall (fun c => exists found, chunk_outcome json_loads self c = Ok found) pre ->
  chunk_outcome json_loads self chunk = Raise e ->
  forall acc, collect_outcome json_loads self (pre ++ chunk :: post) acc = Raise e.
Proof.
  intros Hpre Hfail. induction Hpre as [|c pre [found Hc] _ IH]; intros acc; simpl.
  - now rewrite Hfail.
  - rewrite Hc. apply IH.
Qed.

Lemma collect_nothing (json_loads : string -> option json) (self : app)
    (chunks : list string) :
  Forall (fun c => chunk_outcome json_loads self c = Ok []) chunks ->
  (forall acc, collect_outcome json_loads self chunks acc = Ok acc)
  /\ collect_log json_loads self chunks
     = flat_map (fun c => [coding_line c; received_line 0]) chunks.
Proof.
  induction 1 as [|c chunks Hc _ [IH1 IH2]]; simpl.
  - auto.
  - unfold chunk_log. rewrite Hc. split.
    + intros acc. now rewrite app_nil_r.
    + simpl. now rewrite IH2.
Qed.

(** Whatever happens, the disk is either untouched, or the output path alone
    was written, once, after everything else, with the loaded document's
    paragraphs (their text unchanged) followed by the legend. *)
Lemma process_document_disk (json_loads : string -> option json) (self : app) (w : world) :
  let w' := _process_document json_loads self w in
  (disk w' = disk w
   /\ exists e, dialogs w' = (dialogs w ++ [showerror "Processing failed" (exn_str e)])%list)
  \/ (exists doc doc',
        disk w (input_path self) = Some doc
        /\ disk w' = write_file (disk w) (output_path self) (doc' ++ legend_block)%list
        /\ map paragraph_text doc' = map paragraph_text doc
        /\ dialogs w' = (dialogs w ++ [showinfo "Done" "Processing complete!"])%list).
Proof.
  cbv zeta.
  destruct (disk w (input_path self)) as [doc|] eqn:Hd.
  2:{ left. destruct (process_load_fails json_loads self w Hd) as [e ->].
      split; [reflexivity | now exists e]. }
  destruct (extract_paragraphs doc) as [|p ps] eqn:Hps.
  { left. rewrite (process_no_text json_loads self w doc Hd Hps).
    split; [reflexivity | now exists no_text]. }
  assert (Hne : extract_paragraphs doc <> []) by (rewrite Hps; discriminate).
  destruct (collect_outcome json_loads self
              (chunk_text (extract_paragraphs doc) default_max_chars) [])
    as [[|m ms] | e] eqn:Hout.
  - destruct (write_error w (output_path self)) as [message|] eqn:Hw.
    { left. rewrite (process_no_matches_save_fails json_loads self w doc Hd message Hne Hout Hw).
      split; [reflexivity | eexists; reflexivity]. }
    right. exists doc, doc.
    rewrite (process_no_matches json_loads self w doc Hd Hne Hout Hw), append_legend_eq.
    repeat split; reflexivity.
  - destruct (_apply_highlights doc (m :: ms) 0) as [[doc' n] | e] eqn:Happ.
    + destruct (write_error w (output_path self)) as [message|] eqn:Hw.
      { left.
        rewrite (process_with_matches_save_fails json_loads self w doc Hd m ms doc' n
                   message Hne Hout Happ Hw).
        split; [reflexivity | eexists; reflexivity]. }
      right. exists doc, doc'.
      rewrite (process_with_matches json_loads self w doc Hd m ms doc' n Hne Hout Happ Hw),
        append_legend_eq.
      repeat split; try reflexivity. eapply apply_highlights_text. exact Happ.
    + left. rewrite (process_highlight_fails json_loads self w doc Hd m ms e Hne Hout Happ).
      split; [reflexivity | now exists e].
  - left. rewrite (process_collect_fails json_loads self w doc Hd e Hne Hout).
    split; [reflexivity | now exists e].
Qed.

(** C6, as the claim words it, fails for decodable content that breaks the
    schema: nothing checks the schema.  A response whose "quotes" is the
    string "hi" decodes, does not conform, and is read character by
    character: the run ends normally with two highlights applied and the
    output written.  A response that is a JSON list aborts the run, with the
    message of an [AttributeError] that does not carry the payload. *)
Lemma schema_violation_counterexample :
  let w1 := _process_document example_loads (example_app payload_quotes_string)
                              (example_world hello_doc) in
  let w2 := _process_document example_loads (example_app payload_list)
                              (example_world hello_doc) in
  (exists parsed, example_loads payload_quotes_string = Some parsed
                  /\ conforms parsed = false)
  /\ chunk_outcome example_loads (example_app payload_quotes_string) "Hello world"
     = Ok [{| category := "A"; quote := "h" |}; {| category := "A"; quote := "i" |}]
  /\ dialogs w1 = [showinfo "Done" "Processing complete!"]
  /\ In "Applied 2 highlight(s)." (log w1)
  /\ (exists written, disk w1 "out.docx" = Some written)
  /\ (exists parsed, example_loads payload_list = Some parsed /\ conforms parsed = false)
  /\ dialogs w2 = [showerror "Processing failed" "'list' object has no attribute 'get'"]
  /\ disk w2 "out.docx" = None.
Proof.
  cbv zeta. split; [eexists; split; reflexivity|].
  split; [reflexivity|]. split; [reflexivity|].
  split; [vm_compute; tauto|].
  split; [eexists; reflexivity|].
  split; [eexists; split; reflexivity|].
  split; reflexivity.
Qed.

(** C6 (amended): when the service answers a chunk with text that [json.loads]
    rejects (every earlier chunk having gone through), [_code_chunk] raises a
    [ValueError] whose message carries the raw text, the run aborts with that
    message in an error box and in the log, and the disk is left as it was.
    In every run the disk is either untouched or written once, at the output
    path, by the [save] that ends a successful run.  (Decodable content is
    not checked against the schema.) *)
Theorem undecodable_response_aborts (json_loads : string -> option json) (self : app)
    (w : world) (doc : document) (pre post : list string) (chunk raw : string)
    (Hdisk : disk w (input_path self) = Some doc)
    (Htext : extract_paragraphs doc <> [])
    (Hchunks : chunk_text (extract_paragraphs doc) default_max_chars
               = (pre ++ chunk :: post)%list)
    (Hpre : Forall (fun c => exists found, chunk_outcome json_loads self c = Ok found) pre)
    (Hreply : client self chunk = Content (Some raw))
    (Hbad : json_loads raw = None) :
  let w' := _process_document json_loads self w in
  chunk_outcome json_loads self chunk
  = Raise {| exn_kind := ValueError;
             exn_str := "Model response was not valid JSON: " ++ raw |}
  /\ disk w' = disk w
  /\ dialogs w'
     = (dialogs w ++ [showerror "Processing failed"
                                ("Model response was not valid JSON: " ++ raw)])%list
  /\ (exists lines,
        log w' = (log w ++ lines
                  ++ [("ERROR: Model response was not valid JSON: " ++ raw)%string])%list)
  /\ button_enabled w' = true
  /\ (forall w0,
        disk (_process_document json_loads self w0) = disk w0
        \/ exists written,
             disk (_process_document json_loads self w0)
             = write_file (disk w0) (output_path self) written
             /\ dialogs (_process_document json_loads self w0)
                = (dialogs w0 ++ [showinfo "Done" "Processing complete!"])%list).
Proof.
  cbv zeta.
  assert (Hout : chunk_outcome json_loads self chunk = Raise (not_valid_json raw))
    by (unfold chunk_outcome; now rewrite Hreply, Hbad).
  split; [exact Hout|].
  pose proof (collect_outcome_first_failure json_loads self pre post chunk _ Hpre Hout [])
    as Hcol.
  rewrite <- Hchunks in Hcol.
  rewrite (process_collect_fails json_loads self w doc Hdisk _ Htext Hcol).
  split; [reflexivity|]. split; [reflexivity|]. split.
  { eexists. unfold failed, add_log. cbn [log]. rewrite <- app_assoc. reflexivity. }
  split; [reflexivity|].
  intros w0. destruct (process_document_disk json_loads self w0)
    as [[Hsame _] | [d [d' [_ [Hw [_ Hdlg]]]]]]; [now left|].
  right. eexists. split; [exact Hw | exact Hdlg].
Qed.

Lemma undecodable_response_aborts_witness :
  let w := example_world hello_doc in
  let w' := _process_document example_loads (example_app "not json") w in
  example_loads "not json" = None
  /\ disk w' "out.docx" = None
  /\ dialogs w' = [showerror "Processing failed"
                             "Model response was not valid JSON: not json"].
Proof.
  cbv zeta.
  destruct (undecodable_response_aborts example_loads (example_app "not json")
              (example_world hello_doc) hello_doc [] []
              ("Hello world" ++ nl ++ "hi there") "not json"
              eq_refl ltac:(discriminate) eq_refl (Forall_nil _) eq_refl eq_refl)
    as [_ [Hd [Hdlg _]]].
  split; [reflexivity|]. split; [now rewrite Hd | exact Hdlg].
Defined.

(** C7: highlighting changes run properties only, never the text of a run or
    of a paragraph; the legend is appended after the existing paragraphs,
    nine paragraphs, the existing ones untouched; and whatever the pipeline
    writes is the loaded document's paragraphs, each with its text unchanged,
    followed by the legend. *)
Theorem text_invariance (json_loads : string -> option json) (self : app) (w : world) :
  let w' := _process_document json_loads self w in
  (forall r c, r_text (apply_shading r c) = r_text r)
  /\ (forall doc q c,
        map paragraph_text (fst (highlight_quote doc q c)) = map paragraph_text doc)
  /\ (forall doc, _append_legend doc = (doc ++ legend_block)%list)
  /\ List.length legend_block = 9%nat
  /\ (disk w' = disk w
      \/ exists doc doc',
           disk w (input_path self) = Some doc
           /\ disk w' = write_file (disk w) (output_path self) (doc' ++ legend_block)%list
           /\ map paragraph_text doc' = map paragraph_text doc).
Proof.
  cbv zeta. split; [reflexivity|]. split; [apply highlight_quote_text|].
  split; [apply append_legend_eq|]. split; [reflexivity|].
  destruct (process_document_disk json_loads self w)
    as [[Hsame _] | [doc [doc' [Hd [Hw [Ht _]]]]]]; [now left|].
  right. exists doc, doc'. auto.
Qed.

(** C9, as the claim words it, fails in its last part: a run with no match
    reports no applied count.  [_apply_highlights] is not called and the line
    "Applied ... highlight(s)." is not logged; the log says that no excerpt
    was returned.  Everything else of the claim holds on this run. *)
Lemma zero_match_counterexample :
  let w' := _process_document example_loads (example_app payload_empty)
                              (example_world hello_doc) in
  example_loads payload_empty = Some (JObject [("matches", JArray [])])
  /\ log w' = [ "Loading transcript...";
                "Coding chunk with 20 characters...";
                "Received 0 matches.";
                "No excerpts were returned by the model. Saving original document.";
                "Saved coded transcript to out.docx." ]
  /\ ~ In "Applied 0 highlight(s)." (log w')
  /\ dialogs w' = [showinfo "Done" "Processing complete!"]
  /\ disk w' "out.docx" = Some (hello_doc ++ legend_block)%list.
Proof.
  cbv zeta. split; [reflexivity|]. split; [reflexivity|].
  split; [|split; reflexivity].
  vm_compute. intuition discriminate.
Qed.

Lemma applied_line_not_logged (n : nat) (self : app) (chunks : list string) :
  ~ In (applied_line n)
       (loading_line
        :: flat_map (fun c => [coding_line c; received_line 0]) chunks
        ++ [no_excerpts_line; saved_line self])%list.
Proof.
  intros [H | H]; [discriminate H|].
  apply in_app_or in H. destruct H as [H | [H | [H | []]]]; try discriminate H.
  apply in_flat_map in H. destruct H as [c [_ [H | [H | []]]]]; discriminate H.
Qed.

(** C9 (amended): for a document with some non-blank paragraph, when every
    chunk comes back with no match and the output path can be written, the
    run does not fail: no highlighting is done, the document written to the
    output path is the loaded document followed by the legend block, the
    closing box is shown, and the log holds the no-excerpt line in place of
    any applied count. *)
Theorem zero_match_run (json_loads : string -> option json) (self : app)
    (w : world) (doc : document)
    (Hdisk : disk w (input_path self) = Some doc)
    (Htext : extract_paragraphs doc <> [])
    (Hzero : Forall (fun c => chunk_outcome json_loads self c = Ok [])
                    (chunk_text (extract_paragraphs doc) default_max_chars))
    (Hsave : write_error w (output_path self) = None) :
  let w' := _process_document json_loads self w in
  let lines := (loading_line
                :: flat_map (fun c => [coding_line c; received_line 0])
                            (chunk_text (extract_paragraphs doc) default_max_chars)
                ++ [no_excerpts_line; saved_line self])%list in
  disk w' = write_file (disk w) (output_path self) (doc ++ legend_block)%list
  /\ dialogs w' = (dialogs w ++ [showinfo "Done" "Processing complete!"])%list
  /\ log w' = (log w ++ lines)%list
  /\ (forall n, ~ In (applied_line n) lines)
  /\ button_enabled w' = true.
Proof.
  cbv zeta.
  destruct (collect_nothing json_loads self _ Hzero) as [Hout Hlog].
  rewrite (process_no_matches json_loads self w doc Hdisk Htext (Hout []) Hsave).
  rewrite Hlog, append_legend_eq. unfold succeeded. cbn [disk dialogs log button_enabled].
  repeat split. intros n. apply applied_line_not_logged.
Qed.

Lemma zero_match_run_witness :
  let w := example_world hello_doc in
  let w' := _process_document example_loads (example_app payload_empty) w in
  extract_paragraphs hello_doc <> []
  /\ Forall (fun c => chunk_outcome example_loads (example_app payload_empty) c = Ok [])
            (chunk_text (extract_paragraphs hello_doc) default_max_chars)
  /\ write_error w "out.docx" = None
  /\ disk w' "out.docx" = Some (hello_doc ++ legend_block)%list
  /\ dialogs w' = [showinfo "Done" "Processing complete!"].
Proof.
  cbv zeta.
  assert (Htext : extract_paragraphs hello_doc <> []) by discriminate.
  assert (Hzero : Forall (fun c => chunk_outcome example_loads
                                     (example_app payload_empty) c = Ok [])
                         (chunk_text (extract_paragraphs hello_doc) default_max_chars)).
  { repeat constructor. }
  split; [exact Htext|]. split; [exact Hzero|]. split; [reflexivity|].
  destruct (zero_match_run example_loads (example_app payload_empty)
              (example_world hello_doc) hello_doc eq_refl Htext Hzero eq_refl)
    as [Hd [Hdlg _]].
  split; [now rewrite Hd | exact Hdlg].
Defined.

(** The end-to-end example of the specification: two paragraphs, one call
    returning one match for each with different categories; the output has
    both paragraphs shaded with their category's color, then the title and
    the eight entries of the legend, and the paragraph texts are unchanged. *)
Example end_to_end :
  let w' := _process_document example_loads
              (example_app (payload_two "A" "Hello world" "b" "hi there"))
              (example_world hello_doc) in
  exists shaded,
    disk w' "out.docx" = Some (shaded ++ legend_block)%list
    /\ map paragraph_text shaded = ["Hello world"; "hi there"]
    /\ map (fun p => map shadings (paragraph_runs p)) shaded = [[["FFF2CC"]]; [["DAEEF3"]]]
    /\ List.length legend_block = 9%nat
    /\ In "Applied 2 highlight(s)." (log w').
Proof.
  cbv zeta.
  exists (fst (highlight_quote (fst (highlight_quote hello_doc "Hello world" "FFF2CC"))
                               "hi there" "DAEEF3")).
  split; [vm_compute; reflexivity|].
  split; [reflexivity|]. split; [reflexivity|]. split; [reflexivity|].
  vm_compute. tauto.
Qed.

(* ------------------------------------------------------------------ *)
(** * Further properties of the code *)

(** ** Trimming and case *)

Lemma lstrip_head (s : string) (a : ascii) (t : string) :
  lstrip s = String a t -> isspace a = false.
Proof.
  induction s as [|b s IH]; simpl; [discriminate|].
  destruct (isspace b) eqn:Hb; [exact IH|]. intros H. inversion H. now subst.
Qed.

Lemma rstrip_keeps_head (a : ascii) (t : string) :
  isspace a = false -> exists r, rstrip (String a t) = String a r.
Proof.
  intros Ha. simpl. destruct (rstrip t); [rewrite Ha|]; eauto.
Qed.

Lemma rstrip_idempotent (s : string) : rstrip (rstrip s) = rstrip s.
Proof.
  induction s as [|a s IH]; [reflexivity|]. simpl.
  destruct (rstrip s) as [|b r] eqn:Hr.
  - destruct (isspace a) eqn:Ha; [reflexivity|]. simpl. now rewrite Ha.
  - change (rstrip (String a (String b r))) with
      (match rstrip (String b r) with
       | EmptyString => if isspace a then EmptyString else String a EmptyString
       | String c r' => String a (String c r')
       end).
    now rewrite IH.
Qed.

(** [s.strip().strip() == s.strip()] *)
Lemma strip_idempotent (s : string) : strip (strip s) = strip s.
Proof.
  unfold strip. destruct (lstrip s) as [|a t] eqn:Hl; [reflexivity|].
  apply lstrip_head in Hl.
  destruct (rstrip_keeps_head a t Hl) as [r Hr]. rewrite Hr.
  cbn [lstrip]. rewrite Hl, <- Hr. apply rstrip_idempotent.
Qed.

Lemma map_chars_empty (f : ascii -> ascii) (s : string) :
  map_chars f s = EmptyString <-> s = EmptyString.
Proof. destruct s; simpl; split; congruence. Qed.

Lemma truthy_map_chars (f : ascii -> ascii) (s : string) :
  truthy (map_chars f s) = truthy s.
Proof. now destruct s. Qed.

Section CaseMaps.

(** A character map that keeps blanks blank and the rest not blank, as
    [lower] and [upper] do. *)
Variable f : ascii -> ascii.
Hypothesis f_space : forall c, isspace (f c) = isspace c.

Lemma lstrip_map_chars (s : string) :
  lstrip (map_chars f s) = map_chars f (lstrip s).
Proof.
  induction s as [|a s IH]; [reflexivity|]. simpl. rewrite f_space.
  destruct (isspace a); [exact IH | reflexivity].
Qed.

Lemma rstrip_map_chars (s : string) :
  rstrip (map_chars f s) = map_chars f (rstrip s).
Proof.
  induction s as [|a s IH]; [reflexivity|]. simpl. rewrite IH.
  destruct (rstrip s) as [|b r]; simpl; [rewrite f_space; now destruct (isspace a)|].
  reflexivity.
Qed.

Lemma strip_map_chars (s : string) : strip (map_chars f s) = map_chars f (strip s).
Proof. unfold strip. now rewrite lstrip_map_chars, rstrip_map_chars. Qed.

End CaseMaps.

Lemma isspace_upper_char (c : ascii) : isspace (upper_char c) = isspace c.
Proof. destruct c as [[] [] [] [] [] [] [] []]; reflexivity. Qed.

Lemma isspace_lower_char (c : ascii) : isspace (lower_char c) = isspace c.
Proof. destruct c as [[] [] [] [] [] [] [] []]; reflexivity. Qed.

Lemma lower_upper_char (c : ascii) : lower_char (upper_char c) = lower_char c.
Proof. destruct c as [[] [] [] [] [] [] [] []]; reflexivity. Qed.

Lemma lower_lower_char (c : ascii) : lower_char (lower_char c) = lower_char c.
Proof. destruct c as [[] [] [] [] [] [] [] []]; reflexivity. Qed.

Lemma map_chars_compose (f g : ascii -> ascii) (s : string) :
  map_chars f (map_chars g s) = map_chars (fun c => f (g c)) s.
Proof. induction s as [|a s IH]; simpl; [reflexivity | now rewrite IH]. Qed.

Lemma map_chars_ext (f g : ascii -> ascii) (s : string) :
  (forall c, f c = g c) -> map_chars f s = map_chars g s.
Proof. intros H. induction s as [|a s IH]; simpl; [reflexivity | now rewrite H, IH]. Qed.

Lemma lower_strip_upper (s : string) : lower (strip (upper s)) = lower (strip s).
Proof.
  unfold lower, upper. rewrite (strip_map_chars upper_char isspace_upper_char).
  rewrite map_chars_compose. apply map_chars_ext. apply lower_upper_char.
Qed.

Lemma lower_strip_lower (s : string) : lower (strip (lower s)) = lower (strip s).
Proof.
  unfold lower. rewrite (strip_map_chars lower_char isspace_lower_char).
  rewrite map_chars_compose. apply map_chars_ext. apply lower_lower_char.
Qed.

(** ** The chunker, further *)

Lemma chunk_loop_within_budget (B : Z) (l : list string) :
  cost l <= B ->
  chunk_loop B l = {| chunks := []; buffer := l; current := cost l |}.
Proof.
  induction l as [|p l IH] using rev_ind; intros Hc; [reflexivity|].
  rewrite cost_app in Hc. pose proof (len_nonneg p) as Hp.
  rewrite chunk_loop_snoc, IH by lia.
  unfold chunk_step, starts_new_chunk. cbn [current buffer chunks].
  replace (cost l + len p + 1 >? B) with false
    by (symmetry; rewrite Z.gtb_ltb; apply Z.ltb_ge; lia).
  cbn [andb]. cbn [current buffer chunks]. now rewrite cost_app.
Qed.

(** X1: paragraphs whose joined text is shorter than the budget are sent as
    one chunk, their newline-join. *)
Theorem chunk_text_single_chunk (P : list string) (B : Z)
    (Hne : P <> [])
    (Hshort : len (join nl P) < B) :
  chunk_text P B = [join nl P].
Proof.
  pose proof (join_cost P Hne) as Hj.
  unfold chunk_text. rewrite chunk_loop_within_budget by lia.
  cbn [buffer chunks]. destruct P; [congruence | reflexivity].
Qed.

Lemma chunk_text_single_chunk_witness :
  ["short1"; "short2"; "short3"] <> []
  /\ len (join nl ["short1"; "short2"; "short3"]) < 3500
  /\ chunk_text ["short1"; "short2"; "short3"] 3500
     = [join nl ["short1"; "short2"; "short3"]].
Proof.
  assert (H1 : ["short1"; "short2"; "short3"] <> []) by discriminate.
  assert (H2 : len (join nl ["short1"; "short2"; "short3"]) < 3500) by reflexivity.
  split; [exact H1|]. split; [exact H2|].
  exact (chunk_text_single_chunk ["short1"; "short2"; "short3"] 3500 H1 H2).
Defined.

Lemma greedy_close (B : Z) (gs : list (list string)) (g : list string)
    (p : string) (t : list string) :
  greedy B (gs ++ [g]) -> B < cost g + len p + 1 -> greedy B ((gs ++ [g]) ++ [p :: t]).
Proof.
  intros Hg Hp. induction gs as [|g1 gs IH].
  - simpl. auto.
  - destruct gs as [|g2 gs].
    + simpl in *. destruct g; tauto.
    + change (greedy B (g1 :: ((g2 :: gs) ++ [g]) ++ [p :: t])).
      change (greedy B (g1 :: (g2 :: gs) ++ [g])) in Hg.
      simpl in Hg. simpl. destruct Hg as [H1 H2]. split; [exact H1|].
      apply IH. exact H2.
Qed.

Lemma greedy_grow (B : Z) (gs : list (list string)) (g : list string) (p : string) :
  g <> [] -> greedy B (gs ++ [g]) -> greedy B (gs ++ [(g ++ [p])%list])%list.
Proof.
  intros Hne Hg. induction gs as [|g1 gs IH].
  - simpl. auto.
  - destruct gs as [|g2 gs].
    + simpl in *. destruct g as [|q g]; [congruence|]. simpl. tauto.
    + simpl in Hg. simpl. destruct Hg as [H1 H2]. split; [exact H1|].
      apply IH. exact H2.
Qed.

Lemma chunk_groups_greedy (P : list string) (B : Z) : greedy B (chunk_groups P B).
Proof.
  induction P as [|p l IH] using rev_ind; [exact I|].
  destruct (chunk_loop_inv B l) as [_ Hb Hcur Hcost Hcat Hne _ _ Hst].
  unfold chunk_groups in *. rewrite group_loop_snoc. unfold group_step.
  rewrite <- Hcur, Hcost, Hb.
  destruct (group_loop B l) as [gs gb gc]. cbn [groups gbuffer gcurrent] in *.
  destruct gb as [|q gb].
  - rewrite andb_false_r. cbn [gbuffer groups nonempty List.app].
    assert (Hl : l = []) by (destruct l; [reflexivity | exfalso; now apply Hst]).
    rewrite Hl in Hcat. destruct gs as [|g gs]; [exact I|].
    inversion Hne as [|? ? Hg _]. destruct g; [congruence | discriminate Hcat].
  - cbn [nonempty] in IH. rewrite andb_true_r.
    destruct (cost (q :: gb) + len p + 1 >? B) eqn:Hguard; cbn [gbuffer groups nonempty List.app].
    + apply greedy_close; [exact IH|]. apply Z.gtb_lt in Hguard. lia.
    + apply (greedy_grow B gs (q :: gb) p); [discriminate | exact IH].
Qed.

Lemma greedy_adjacent (B : Z) (gs1 gs2 : list (list string)) (g1 g2 : list string) :
  greedy B (gs1 ++ g1 :: g2 :: gs2) ->
  exists p rest, g2 = p :: rest /\ B < cost g1 + len p + 1.
Proof.
  induction gs1 as [|g gs1 IH]; intros H.
  - simpl in H. destruct g2 as [|p rest]; [tauto|]. exists p, rest. tauto.
  - apply IH. change (greedy B (g :: (gs1 ++ g1 :: g2 :: gs2))) in H.
    destruct (gs1 ++ g1 :: g2 :: gs2)%list as [|t tl]; [exact I|].
    simpl in H. tauto.
Qed.

(** X2: chunking is greedy.  Of two consecutive chunks, the first was closed
    only because the first paragraph of the second did not fit: joined to
    the first chunk, it would have brought the length, plus one, past the
    budget. *)
Theorem chunk_text_greedy (P : list string) (B : Z)
    (gs1 gs2 : list (list string)) (g1 g2 : list string)
    (Hgroups : chunk_groups P B = (gs1 ++ g1 :: g2 :: gs2)%list) :
  chunk_text P B
  = (map (join nl) gs1 ++ join nl g1 :: join nl g2 :: map (join nl) gs2)%list
  /\ exists p rest, g2 = p :: rest /\ B < len (join nl (g1 ++ [p])) + 1.
Proof.
  split.
  - rewrite chunk_text_groups, Hgroups, map_app. reflexivity.
  - pose proof (chunk_groups_greedy P B) as Hg. rewrite Hgroups in Hg.
    destruct (greedy_adjacent B gs1 gs2 g1 g2 Hg) as [p [rest [-> Hp]]].
    exists p, rest. split; [reflexivity|].
    rewrite join_cost by (destruct g1; discriminate). rewrite cost_app. lia.
Qed.

Lemma chunk_text_greedy_witness :
  chunk_groups ["ab"; "c"; "d"] 4 = ([] ++ ["ab"] :: ["c"; "d"] :: [])%list
  /\ chunk_text ["ab"; "c"; "d"] 4 = ["ab"; "c" ++ nl ++ "d"]
  /\ exists p rest, ["c"; "d"] = p :: rest /\ 4 < len (join nl (["ab"] ++ [p])) + 1.
Proof.
  assert (H : chunk_groups ["ab"; "c"; "d"] 4 = ([] ++ ["ab"] :: ["c"; "d"] :: [])%list)
    by reflexivity.
  split; [exact H|].
  exact (chunk_text_greedy ["ab"; "c"; "d"] 4 [] [] ["ab"] ["c"; "d"] H).
Defined.

Lemma length_concat_nonempty {A : Type} (gs : list (list A)) :
  Forall (fun g => g <> []) gs -> (List.length gs <= List.length (concat gs))%nat.
Proof.
  induction 1 as [|g gs Hg _ IH]; simpl; [lia|].
  rewrite length_app. destruct g; [congruence | simpl; lia].
Qed.

(** X3: there are never more chunks than paragraphs, and there is no chunk
    exactly when there is no paragraph. *)
Theorem chunk_text_count (P : list string) (B : Z) :
  (List.length (chunk_text P B) <= List.length P)%nat
  /\ (chunk_text P B = [] <-> P = []).
Proof.
  destruct (chunk_groups_partition P B) as [Hcat Hne].
  rewrite chunk_text_groups. split.
  - rewrite length_map. rewrite <- Hcat at 2. now apply length_concat_nonempty.
  - split; intros H.
    + apply map_eq_nil in H. rewrite H in Hcat. now rewrite <- Hcat.
    + subst P. reflexivity.
Qed.

Lemma extract_paragraphs_trimmed (doc : document) :
  Forall (fun p => p <> EmptyString /\ strip p = p) (extract_paragraphs doc).
Proof.
  apply Forall_forall. intros p Hp. unfold extract_paragraphs in Hp.
  apply filter_In in Hp. destruct Hp as [Hp Ht]. apply in_map_iff in Hp.
  destruct Hp as [q [<- _]]. split; [now apply truthy_true | apply strip_idempotent].
Qed.

Lemma join_nonempty (p : string) (rest : list string) :
  p <> EmptyString -> join nl (p :: rest) <> EmptyString.
Proof.
  intros Hp. destruct rest as [|q rest]; [exact Hp|].
  rewrite join_cons. destruct p; [congruence | discriminate].
Qed.

(** X4: the paragraphs the pipeline extracts are trimmed and not empty, there
    are no more of them than the document has paragraphs, and every chunk
    built from them, whatever the budget, is a non-empty text: the service
    is never sent an empty chunk. *)
Theorem pipeline_chunks_nonempty (doc : document) (B : Z) :
  Forall (fun p => p <> EmptyString /\ strip p = p) (extract_paragraphs doc)
  /\ (List.length (extract_paragraphs doc) <= List.length doc)%nat
  /\ Forall (fun c => c <> EmptyString) (chunk_text (extract_paragraphs doc) B).
Proof.
  pose proof (extract_paragraphs_trimmed doc) as Ht.
  split; [exact Ht|]. split.
  - unfold extract_paragraphs.
    etransitivity; [apply filter_length_le | now rewrite length_map].
  - destruct (chunk_groups_partition (extract_paragraphs doc) B) as [Hcat Hne].
    rewrite chunk_text_groups. apply Forall_map.
    rewrite Forall_forall in *. intros g Hg.
    destruct g as [|p rest]; [now apply Hne in Hg|].
    apply join_nonempty. apply Ht. rewrite <- Hcat.
    apply in_concat. exists (p :: rest). split; [exact Hg | now left].
Qed.

(** ** The highlighter, further *)

Lemma existsb_text (quote : string) (doc : document) :
  existsb (paragraph_matches quote) doc
  = existsb (text_matches quote) (map paragraph_text doc).
Proof. induction doc as [|p doc IH]; simpl; [reflexivity | now rewrite IH]. Qed.

(** The returned flag, for any quote. *)
Lemma highlight_quote_flag (doc : document) (quote color_hex : string) :
  snd (highlight_quote doc quote color_hex) = quote_found doc quote.
Proof.
  unfold quote_found. destruct (truthy (strip quote)) eqn:Ht.
  - rewrite highlight_quote_eq by (now apply truthy_true). simpl. apply existsb_text.
  - unfold highlight_quote. now rewrite Ht.
Qed.

(** The document after the call, for any quote. *)
Lemma highlight_quote_doc (doc : document) (quote color_hex : string) :
  fst (highlight_quote doc quote color_hex)
  = map (fun p => if truthy (strip quote) && text_matches quote (paragraph_text p)
                  then shade_runs color_hex p else p) doc.
Proof.
  destruct (truthy (strip quote)) eqn:Ht.
  - rewrite highlight_quote_eq by (now apply truthy_true). reflexivity.
  - unfold highlight_quote. rewrite Ht. simpl. now rewrite map_id.
Qed.

Lemma quote_found_by_text (d1 d2 : document) (quote : string) :
  map paragraph_text d1 = map paragraph_text d2 ->
  quote_found d1 quote = quote_found d2 quote.
Proof. intros H. unfold quote_found. now rewrite H. Qed.

(** X5: whether a quote is found depends on the paragraph texts alone: not on
    the color asked for, and not on any highlighting done before. *)
Theorem highlight_flag_ignores_styling (doc : document) (q c q' c' c2 : string) :
  snd (highlight_quote (fst (highlight_quote doc q c)) q' c')
  = snd (highlight_quote doc q' c')
  /\ snd (highlight_quote doc q c) = snd (highlight_quote doc q c2)
  /\ List.length (fst (highlight_quote doc q c)) = List.length doc.
Proof.
  rewrite !highlight_quote_flag. split; [|split].
  - apply quote_found_by_text. apply highlight_quote_text.
  - reflexivity.
  - rewrite highlight_quote_doc. apply length_map.
Qed.

Lemma highlight_quote_by_normal_form (doc : document) (q1 q2 color_hex : string) :
  lower (strip q1) = lower (strip q2) ->
  highlight_quote doc q1 color_hex = highlight_quote doc q2 color_hex.
Proof.
  intros H. unfold highlight_quote.
  rewrite <- (truthy_map_chars lower_char (strip q1)).
  rewrite <- (truthy_map_chars lower_char (strip q2)).
  fold (lower (strip q1)). fold (lower (strip q2)). now rewrite H.
Qed.

(** X6: matching ignores case and surrounding blanks.  For a quote of ASCII
    characters, the quote upper-cased, lower-cased or trimmed gives the same
    call on every document; and a text of ASCII characters matches exactly
    when its upper-cased form does. *)
Theorem highlight_quote_case_insensitive (doc : document) (quote color_hex text : string)
    (Hquote : ascii_only quote = true)
    (Htext : ascii_only text = true) :
  highlight_quote doc (upper quote) color_hex = highlight_quote doc quote color_hex
  /\ highlight_quote doc (lower quote) color_hex = highlight_quote doc quote color_hex
  /\ highlight_quote doc (strip quote) color_hex = highlight_quote doc quote color_hex
  /\ text_matches quote (upper text) = text_matches quote text.
Proof.
  split; [apply highlight_quote_by_normal_form, lower_strip_upper|].
  split; [apply highlight_quote_by_normal_form, lower_strip_lower|].
  split; [apply highlight_quote_by_normal_form; now rewrite strip_idempotent|].
  unfold text_matches. rewrite lower_strip_upper.
  unfold upper. rewrite (strip_map_chars upper_char isspace_upper_char).
  now rewrite truthy_map_chars.
Qed.

Lemma highlight_quote_case_insensitive_witness :
  ascii_only " Brown Fox " = true
  /\ ascii_only "The quick Brown fox" = true
  /\ highlight_quote fox_doc (upper " Brown Fox ") "DAEEF3"
     = highlight_quote fox_doc " Brown Fox " "DAEEF3"
  /\ snd (highlight_quote fox_doc " Brown Fox " "DAEEF3") = true
  /\ text_matches " Brown Fox " (upper "The quick Brown fox") = true.
Proof.
  destruct (highlight_quote_case_insensitive fox_doc " Brown Fox " "DAEEF3"
              "The quick Brown fox" eq_refl eq_refl) as [H1 [_ [_ H4]]].
  split; [reflexivity|]. split; [reflexivity|]. split; [exact H1|].
  split; [reflexivity|]. rewrite H4. reflexivity.
Defined.

(** X7: shading a run leaves no [w:highlight] child behind, keeps every other
    child of the run properties (bold stays bold), and puts the new [w:shd],
    with the fill asked for, last. *)
Theorem apply_shading_children (r : run) (color_hex : string) :
  let after := get_or_add_rPr (apply_shading r color_hex) in
  Forall (fun child => tag child <> qn "w:highlight") after
  /\ (forall child, In child (get_or_add_rPr r) ->
        tag child <> qn "w:highlight" -> In child after)
  /\ (exists kept,
        after = (kept ++ [{| tag := qn "w:shd";
                             attrib := [(qn "w:val", "clear"); (qn "w:fill", color_hex)] |}])%list
        /\ incl kept (get_or_add_rPr r)).
Proof.
  cbv zeta. unfold apply_shading, get_or_add_rPr at 1 2 4. cbn [rPr].
  split; [|split].
  - apply Forall_app. split.
    + apply Forall_forall. intros child Hin. apply filter_In in Hin.
      destruct Hin as [_ Hn]. apply negb_true_iff, String.eqb_neq in Hn. exact Hn.
    + constructor; [|constructor]. cbn [tag]. discriminate.
  - intros child Hin Hn. apply in_or_app. left. apply filter_In. split; [exact Hin|].
    apply negb_true_iff, String.eqb_neq. exact Hn.
  - eexists. split; [reflexivity|]. intros child Hin. apply filter_In in Hin. tauto.
Qed.

(** ** Applying the matches ([_apply_highlights]) *)

Lemma taxonomy_lookup (code : string) :
  in_taxonomy code = true -> exists meta, dict_get code CATEGORY_DETAILS = Some meta.
Proof.
  rewrite <- dict_mem_taxonomy. unfold dict_mem.
  destruct (dict_get code CATEGORY_DETAILS) as [meta|]; [eauto | discriminate].
Qed.

Lemma lookup_in_taxonomy (code : string) (meta : category_meta) :
  dict_get code CATEGORY_DETAILS = Some meta -> in_taxonomy code = true.
Proof. intros H. rewrite <- dict_mem_taxonomy. unfold dict_mem. now rewrite H. Qed.

Lemma shade_with_text (colors : list string) (p : paragraph) :
  paragraph_text (shade_with colors p) = paragraph_text p.
Proof.
  revert p. induction colors as [|c cs IH]; intros p; [reflexivity|].
  unfold shade_with in *. simpl. now rewrite IH, shade_runs_text.
Qed.

(** Every run gets the colors appended to the shading values it has. *)
Lemma shade_with_shadings (colors : list string) (p : paragraph) :
  map shadings (paragraph_runs (shade_with colors p))
  = map (fun r => (shadings r ++ colors)%list) (paragraph_runs p).
Proof.
  revert p. induction colors as [|c cs IH]; intros p.
  - simpl. apply map_ext. intros r. now rewrite app_nil_r.
  - change (shade_with (c :: cs) p) with (shade_with cs (shade_runs c p)).
    rewrite IH, shade_runs_runs, map_map. apply map_ext. intros r.
    now rewrite shadings_apply_shading, <- app_assoc.
Qed.

Lemma apply_highlights_closed_form (ms : list QuoteMatch) :
  forall (doc : document) (n : nat),
    Forall (fun m => in_taxonomy (category m) = true) ms ->
    _apply_highlights doc ms n
    = Ok (map (fun p => shade_with (colors_for (paragraph_text p) ms) p) doc,
          (n + List.length (filter (fun m => quote_found doc (quote m)) ms))%nat).
Proof.
  induction ms as [|m ms IH]; intros doc n Hall.
  - simpl. rewrite Nat.add_0_r. f_equal. f_equal.
    rewrite <- (map_id doc) at 1. apply map_ext. reflexivity.
  - inversion Hall as [|? ? Hm Hms]; subst.
    destruct (taxonomy_lookup _ Hm) as [meta Hmeta].
    cbn [_apply_highlights]. rewrite Hmeta.
    pose proof (highlight_quote_doc doc (quote m) (color meta)) as Hdoc.
    pose proof (highlight_quote_flag doc (quote m) (color meta)) as Hflag.
    pose proof (highlight_quote_text doc (quote m) (color meta)) as Htext.
    destruct (highlight_quote doc (quote m) (color meta)) as [doc1 hit].
    cbn [fst snd] in *. rewrite (IH doc1 _ Hms). f_equal. f_equal.
    + rewrite Hdoc, map_map. apply map_ext. intros p.
      unfold colors_for at 2. cbn [flat_map]. rewrite Hmeta.
      fold (colors_for (paragraph_text p) ms).
      destruct (truthy (strip (quote m)) && text_matches (quote m) (paragraph_text p)).
      * rewrite shade_runs_text. reflexivity.
      * reflexivity.
    + assert (Hf : filter (fun m0 => quote_found doc1 (quote m0)) ms
                   = filter (fun m0 => quote_found doc (quote m0)) ms).
      { apply filter_ext. intros m0. now apply quote_found_by_text. }
      rewrite Hf. cbn [filter]. rewrite Hflag.
      destruct (quote_found doc (quote m)); simpl; lia.
Qed.

Lemma apply_highlights_app (pre rest : list QuoteMatch) :
  forall (doc : document) (n : nat),
    _apply_highlights doc (pre ++ rest) n
    = match _apply_highlights doc pre n with
      | Ok (doc', k) => _apply_highlights doc' rest k
      | Raise e => Raise e
      end.
Proof.
  induction pre as [|m pre IH]; intros doc n; [reflexivity|].
  cbn [_apply_highlights List.app].
  destruct (dict_get (category m) CATEGORY_DETAILS) as [meta|]; [|reflexivity].
  destruct (highlight_quote doc (quote m) (color meta)) as [doc1 hit]. apply IH.
Qed.

(** X8: for matches whose categories are codes of the table,
    [_apply_highlights] does not raise, and the count it returns is the
    number of matches whose quote is found in the document as it was before
    the call (at most the number of matches); the paragraphs keep their
    number and their text. *)
Theorem apply_highlights_count (doc : document) (ms : list QuoteMatch)
    (Hcodes : Forall (fun m => in_taxonomy (category m) = true) ms) :
  exists doc',
    _apply_highlights doc ms 0
    = Ok (doc', List.length (filter (fun m => quote_found doc (quote m)) ms))
    /\ (List.length (filter (fun m => quote_found doc (quote m)) ms) <= List.length ms)%nat
    /\ map paragraph_text doc' = map paragraph_text doc
    /\ List.length doc' = List.length doc.
Proof.
  eexists. split; [apply (apply_highlights_closed_form ms doc 0 Hcodes)|].
  split; [apply filter_length_le|].
  split.
  - rewrite map_map. apply map_ext. intros p. apply shade_with_text.
  - apply length_map.
Qed.

Lemma apply_highlights_count_witness :
  let ms := [ {| category := "B"; quote := "brown fox" |};
              {| category := "A"; quote := "blue fox" |};
              {| category := "C"; quote := "LAZY" |} ] in
  Forall (fun m => in_taxonomy (category m) = true) ms
  /\ exists doc', _apply_highlights fox_doc ms 0 = Ok (doc', 2%nat).
Proof.
  cbv zeta.
  assert (H : Forall (fun m => in_taxonomy (category m) = true)
                [ {| category := "B"; quote := "brown fox" |};
                  {| category := "A"; quote := "blue fox" |};
                  {| category := "C"; quote := "LAZY" |} ])
    by (repeat constructor).
  split; [exact H|].
  destruct (apply_highlights_count fox_doc _ H) as [doc' [Heq _]].
  exists doc'. exact Heq.
Defined.

(** X9: after [_apply_highlights], every run of a paragraph carries the
    shading values it had followed by the colors of the matches whose quote
    the paragraph contains, one per match and in the order of the matches:
    the color of the last such match comes last. *)
Theorem apply_highlights_layers (doc : document) (ms : list QuoteMatch) (n : nat)
    (Hcodes : Forall (fun m => in_taxonomy (category m) = true) ms) :
  exists doc',
    _apply_highlights doc ms n = Ok (doc', (n + List.length
                                       (filter (fun m => quote_found doc (quote m)) ms))%nat)
    /\ doc' = map (fun p => shade_with (colors_for (paragraph_text p) ms) p) doc
    /\ map (fun p => map shadings (paragraph_runs p)) doc'
       = map (fun p => map (fun r => (shadings r ++ colors_for (paragraph_text p) ms)%list)
                           (paragraph_runs p)) doc.
Proof.
  eexists. split; [apply (apply_highlights_closed_form ms doc n Hcodes)|].
  split; [reflexivity|].
  rewrite map_map. apply map_ext. intros p. apply shade_with_shadings.
Qed.

Lemma apply_highlights_layers_witness :
  let ms := [ {| category := "A"; quote := "h" |}; {| category := "B"; quote := "i" |} ] in
  Forall (fun m => in_taxonomy (category m) = true) ms
  /\ exists doc',
       _apply_highlights hello_doc ms 0 = Ok (doc', 2%nat)
       /\ map (fun p => map shadings (paragraph_runs p)) doc'
          = [[["FFF2CC"]]; [["FFF2CC"; "DAEEF3"]]].
Proof.
  cbv zeta.
  assert (H : Forall (fun m => in_taxonomy (category m) = true)
                [ {| category := "A"; quote := "h" |}; {| category := "B"; quote := "i" |} ])
    by (repeat constructor).
  split; [exact H|].
  destruct (apply_highlights_layers hello_doc _ 0 H) as [doc' [Heq [_ Hsh]]].
  exists doc'. split; [exact Heq | exact Hsh].
Defined.

(** X10: a match whose category is no key of the table makes
    [_apply_highlights] raise [KeyError] with that category (its [repr], as
    [str] of a [KeyError] gives it), once the matches before it are done. *)
Theorem apply_highlights_unknown_category (doc : document)
    (pre post : list QuoteMatch) (m : QuoteMatch) (n : nat)
    (Hpre : Forall (fun m' => in_taxonomy (category m') = true) pre)
    (Hbad : in_taxonomy (category m) = false) :
  _apply_highlights doc (pre ++ m :: post) n
  = Raise {| exn_kind := KeyError; exn_str := py_repr (category m) |}.
Proof.
  rewrite apply_highlights_app, (apply_highlights_closed_form pre doc n Hpre).
  cbn [_apply_highlights].
  destruct (dict_get (category m) CATEGORY_DETAILS) as [meta|] eqn:Hget; [|reflexivity].
  apply lookup_in_taxonomy in Hget. congruence.
Qed.

Lemma apply_highlights_unknown_category_witness :
  _apply_highlights fox_doc
    ([ {| category := "B"; quote := "brown fox" |} ]
     ++ {| category := "Z"; quote := "lazy" |} :: []) 0
  = Raise {| exn_kind := KeyError; exn_str := "'Z'" |}.
Proof.
  exact (apply_highlights_unknown_category fox_doc
           [ {| category := "B"; quote := "brown fox" |} ] []
           {| category := "Z"; quote := "lazy" |} 0
           ltac:(repeat constructor) eq_refl).
Defined.

(** ** The parser on arbitrary decoded values *)

Lemma py_strip_trimmed (v : json) (s : string) : py_strip v = Ok s -> strip s = s.
Proof.
  destruct v; simpl; intros H; try discriminate.
  inversion H. apply strip_idempotent.
Qed.

Lemma py_strip_raises (v : json) (e : exn) :
  py_strip v = Raise e -> exn_kind e = AttributeError.
Proof. destruct v; simpl; intros H; inversion H; reflexivity. Qed.

Lemma py_get_raises (v : json) (key : string) (d : json) (e : exn) :
  py_get v key d = Raise e -> exn_kind e = AttributeError.
Proof. destruct v; simpl; intros H; inversion H; reflexivity. Qed.

Lemma py_iter_raises (v : json) (e : exn) :
  py_iter v = Raise e -> exn_kind e = TypeError.
Proof. destruct v; simpl; intros H; inversion H; reflexivity. Qed.

Lemma quotes_loop_sound (code : string) (qs : list json) :
  forall acc ms,
    quotes_loop code qs acc = Ok ms ->
    exists new, ms = (acc ++ new)%list
                /\ Forall (fun m => category m = code /\ quote m <> EmptyString
                                    /\ strip (quote m) = quote m) new.
Proof.
  induction qs as [|q qs IH]; intros acc ms H; cbn [quotes_loop] in H.
  - inversion H. exists []. now rewrite app_nil_r.
  - destruct (py_strip (if json_truthy q then q else JString EmptyString)) as [s|e] eqn:Hs;
      [|discriminate]. cbn [rbind] in H.
    apply py_strip_trimmed in Hs. apply IH in H. destruct H as [new [-> Hnew]].
    destruct (truthy s) eqn:Ht.
    + exists ({| category := code; quote := s |} :: new). rewrite <- app_assoc.
      split; [reflexivity|]. constructor; [|exact Hnew].
      simpl. split; [reflexivity|]. split; [now apply truthy_true | exact Hs].
    + now exists new.
Qed.

Lemma quotes_loop_raises (code : string) (qs : list json) :
  forall acc e, quotes_loop code qs acc = Raise e -> exn_kind e = AttributeError.
Proof.
  induction qs as [|q qs IH]; intros acc e H; cbn [quotes_loop] in H; [discriminate|].
  destruct (py_strip (if json_truthy q then q else JString EmptyString)) as [s|e'] eqn:Hs;
    cbn [rbind] in H.
  - eapply IH. exact H.
  - inversion H; subst. eapply py_strip_raises. exact Hs.
Qed.

Lemma items_loop_sound (items : list json) :
  forall acc ms,
    items_loop items acc = Ok ms ->
    exists new, ms = (acc ++ new)%list /\ Forall valid_match new.
Proof.
  induction items as [|item items IH]; intros acc ms H; cbn [items_loop] in H.
  - inversion H. exists []. now rewrite app_nil_r.
  - destruct (py_get item "category" (JString EmptyString)) as [c|] eqn:Hc; [|discriminate].
    cbn [rbind] in H. destruct (py_strip c) as [c'|] eqn:Hc'; [|discriminate].
    cbn [rbind] in H. rewrite dict_mem_taxonomy in H.
    destruct (in_taxonomy (upper c')) eqn:Hcode; cbn [negb] in H; [|now apply IH].
    destruct (py_get item "quotes" (JArray [])) as [qv|]; [|discriminate]. cbn [rbind] in H.
    destruct (py_iter qv) as [qs|]; [|discriminate]. cbn [rbind] in H.
    destruct (quotes_loop (upper c') qs acc) as [ms1|] eqn:Hq; [|discriminate].
    cbn [rbind] in H. apply quotes_loop_sound in Hq. destruct Hq as [new1 [-> Hnew1]].
    apply IH in H. destruct H as [new2 [-> Hnew2]].
    exists (new1 ++ new2)%list. rewrite app_assoc. split; [reflexivity|].
    apply Forall_app. split; [|exact Hnew2].
    eapply Forall_impl; [|exact Hnew1]. intros m [Hm1 [Hm2 Hm3]].
    unfold valid_match. rewrite Hm1. auto.
Qed.

Lemma items_loop_raises (items : list json) :
  forall acc e,
    items_loop items acc = Raise e ->
    exn_kind e = AttributeError \/ exn_kind e = TypeError.
Proof.
  induction items as [|item items IH]; intros acc e H; cbn [items_loop] in H; [discriminate|].
  destruct (py_get item "category" (JString EmptyString)) as [c|e1] eqn:Hc; cbn [rbind] in H.
  2:{ inversion H; subst. left. eapply py_get_raises. exact Hc. }
  destruct (py_strip c) as [c'|e1] eqn:Hc'; cbn [rbind] in H.
  2:{ inversion H; subst. left. eapply py_strip_raises. exact Hc'. }
  destruct (negb (dict_mem (upper c') CATEGORY_DETAILS)); [eapply IH; exact H|].
  destruct (py_get item "quotes" (JArray [])) as [qv|e1] eqn:Hqv; cbn [rbind] in H.
  2:{ inversion H; subst. left. eapply py_get_raises. exact Hqv. }
  destruct (py_iter qv) as [qs|e1] eqn:Hqs; cbn [rbind] in H.
  2:{ inversion H; subst. right. eapply py_iter_raises. exact Hqs. }
  destruct (quotes_loop (upper c') qs acc) as [ms1|e1] eqn:Hq; cbn [rbind] in H.
  - eapply IH. exact H.
  - inversion H; subst. left. eapply quotes_loop_raises. exact Hq.
Qed.

Lemma parse_matches_valid (parsed : json) (ms : list QuoteMatch) :
  parse_matches parsed = Ok ms -> Forall valid_match ms.
Proof.
  unfold parse_matches. intros H.
  destruct (py_get parsed "matches" (JArray [])) as [v|]; [|discriminate]. cbn [rbind] in H.
  destruct (py_iter v) as [items|]; [|discriminate]. cbn [rbind] in H.
  apply items_loop_sound in H. destruct H as [new [-> Hnew]]. exact Hnew.
Qed.

(** X11: whatever value the response decodes to, well-formed or not, every
    match the parser returns has a category among the eight codes and a
    quote that is trimmed and not empty. *)
Theorem parse_matches_sound (parsed : json) (ms : list QuoteMatch)
    (Hok : parse_matches parsed = Ok ms) :
  Forall (fun m => in_taxonomy (category m) = true
                   /\ quote m <> EmptyString
                   /\ strip (quote m) = quote m
                   /\ exists meta, dict_get (category m) CATEGORY_DETAILS = Some meta)
         ms.
Proof.
  eapply Forall_impl; [|exact (parse_matches_valid parsed ms Hok)].
  intros m [H1 [H2 H3]]. repeat split; auto. now apply taxonomy_lookup.
Qed.

Lemma parse_matches_sound_witness :
  let parsed := JObject [("matches",
                          JArray [JObject [("category", JString "A");
                                           ("quotes", JString "hi")]])] in
  parse_matches parsed
  = Ok [{| category := "A"; quote := "h" |}; {| category := "A"; quote := "i" |}]
  /\ Forall (fun m => in_taxonomy (category m) = true /\ quote m <> EmptyString)
            [{| category := "A"; quote := "h" |}; {| category := "A"; quote := "i" |}].
Proof.
  cbv zeta. split; [reflexivity|].
  eapply Forall_impl;
    [|exact (parse_matches_sound
               (JObject [("matches",
                          JArray [JObject [("category", JString "A");
                                           ("quotes", JString "hi")]])])
               _ eq_refl)].
  intros m [H1 [H2 _]]. split; assumption.
Defined.

(** X12: a decoded top-level value that is no object (null, a boolean, a
    number, a string, a list) always makes the parser raise the
    [AttributeError] of the missing method [get], named after the value's
    type; and whatever the value, the parsing loops raise nothing but
    [AttributeError] (a value without the method asked of it) and
    [TypeError] (a value that cannot be iterated). *)
Theorem parse_matches_errors (parsed : json)
    (Hshape : forall members, parsed <> JObject members) :
  parse_matches parsed
  = Raise {| exn_kind := AttributeError;
             exn_str := "'" ++ type_name parsed ++ "' object has no attribute 'get'" |}
  /\ (forall (any : json) (e : exn),
        parse_matches any = Raise e ->
        exn_kind e = AttributeError \/ exn_kind e = TypeError).
Proof.
  split.
  - destruct parsed; try reflexivity. exfalso. eapply Hshape. reflexivity.
  - intros any e Hraise. unfold parse_matches in Hraise.
    destruct (py_get any "matches" (JArray [])) as [v|e1] eqn:Hv; cbn [rbind] in Hraise.
    2:{ inversion Hraise; subst. left. eapply py_get_raises. exact Hv. }
    destruct (py_iter v) as [items|e1] eqn:Hit; cbn [rbind] in Hraise.
    2:{ inversion Hraise; subst. right. eapply py_iter_raises. exact Hit. }
    eapply items_loop_raises. exact Hraise.
Qed.

Lemma parse_matches_errors_witness :
  (forall members, JFloat (S754_finite false 3 (-1)) <> JObject members)
  /\ parse_matches (JFloat (S754_finite false 3 (-1)))
     = Raise {| exn_kind := AttributeError;
                exn_str := "'float' object has no attribute 'get'" |}
  /\ parse_matches (JArray [])
     = Raise {| exn_kind := AttributeError;
                exn_str := "'list' object has no attribute 'get'" |}.
Proof.
  assert (H1 : forall members, JFloat (S754_finite false 3 (-1)) <> JObject members)
    by discriminate.
  assert (H2 : forall members, JArray [] <> JObject members) by discriminate.
  split; [exact H1|].
  split; [exact (proj1 (parse_matches_errors _ H1)) | exact (proj1 (parse_matches_errors _ H2))].
Defined.

(** Both kinds of error occur for an object: a number under "matches" cannot
    be iterated, a number where an entry should be has no [get]. *)
Example parse_matches_error_kinds :
  parse_matches (JObject [("matches", JNumber 5)])
  = Raise {| exn_kind := TypeError; exn_str := "'int' object is not iterable" |}
  /\ parse_matches (JObject [("matches", JArray [JNumber 5])])
     = Raise {| exn_kind := AttributeError;
                exn_str := "'int' object has no attribute 'get'" |}.
Proof. split; reflexivity. Qed.

Lemma quotes_loop_app (code : string) (qs1 qs2 : list json) :
  forall acc,
    quotes_loop code (qs1 ++ qs2) acc
    = rbind (quotes_loop code qs1 acc) (quotes_loop code qs2).
Proof.
  induction qs1 as [|q qs1 IH]; intros acc; [reflexivity|].
  cbn [quotes_loop List.app].
  destruct (py_strip (if json_truthy q then q else JString EmptyString)); cbn [rbind];
    [apply IH | reflexivity].
Qed.

Lemma items_loop_app (items1 items2 : list json) :
  forall acc,
    items_loop (items1 ++ items2) acc
    = rbind (items_loop items1 acc) (items_loop items2).
Proof.
  induction items1 as [|item items1 IH]; intros acc; [reflexivity|].
  cbn [items_loop List.app].
  destruct (py_get item "category" (JString EmptyString)) as [c|]; cbn [rbind]; [|reflexivity].
  destruct (py_strip c) as [c'|]; cbn [rbind]; [|reflexivity].
  destruct (negb (dict_mem (upper c') CATEGORY_DETAILS)); [apply IH|].
  destruct (py_get item "quotes" (JArray [])) as [qv|]; cbn [rbind]; [|reflexivity].
  destruct (py_iter qv) as [qs|]; cbn [rbind]; [|reflexivity].
  destruct (quotes_loop (upper c') qs acc); cbn [rbind]; [apply IH | reflexivity].
Qed.

(** X13: what the parser drops without an error.  An entry whose category,
    trimmed and upper-cased, is no code is skipped before its quotes are
    looked at, so the rest of the response is read as if the entry were not
    there, whatever sits under its "quotes"; and a quote that is null, false,
    zero or empty is skipped in the same way. *)
Theorem parse_skips_entries (item q : json) (c code : string)
    (pre post qs_pre qs_post : list json) (acc acc' : list QuoteMatch)
    (Hitem : py_get item "category" (JString EmptyString) = Ok (JString c))
    (Hcode : in_taxonomy (upper (strip c)) = false)
    (Hquote : json_truthy q = false) :
  items_loop (pre ++ item :: post) acc = items_loop (pre ++ post) acc
  /\ quotes_loop code (qs_pre ++ q :: qs_post) acc'
     = quotes_loop code (qs_pre ++ qs_post) acc'.
Proof.
  split.
  - rewrite !items_loop_app. destruct (items_loop pre acc) as [ms|]; [|reflexivity].
    cbn [rbind items_loop]. rewrite Hitem. cbn [rbind py_strip].
    rewrite dict_mem_taxonomy, Hcode. reflexivity.
  - rewrite !quotes_loop_app. destruct (quotes_loop code qs_pre acc') as [ms|]; [|reflexivity].
    cbn [rbind quotes_loop]. rewrite Hquote. reflexivity.
Qed.

Lemma parse_skips_entries_witness :
  let odd := JObject [("category", JString " z "); ("quotes", JNumber 5)] in
  let good := JObject [("category", JString "a"); ("quotes", JArray [JNull; JString "x"])] in
  py_get odd "category" (JString EmptyString) = Ok (JString " z ")
  /\ in_taxonomy (upper (strip " z ")) = false
  /\ json_truthy JNull = false
  /\ items_loop ([] ++ odd :: [good]) [] = Ok [{| category := "A"; quote := "x" |}]
  /\ quotes_loop "A" ([] ++ JNull :: [JString "x"]) []
     = Ok [{| category := "A"; quote := "x" |}].
Proof.
  cbv zeta.
  destruct (parse_skips_entries
              (JObject [("category", JString " z "); ("quotes", JNumber 5)])
              JNull " z " "A" []
              [JObject [("category", JString "a"); ("quotes", JArray [JNull; JString "x"])]]
              [] [JString "x"] [] [] eq_refl eq_refl eq_refl) as [H1 H2].
  split; [reflexivity|]. split; [reflexivity|]. split; [reflexivity|].
  split; [rewrite H1 | rewrite H2]; reflexivity.
Defined.

(** ** The pipeline, further *)

Lemma chunk_outcome_valid (json_loads : string -> option json) (self : app)
    (chunk : string) (found : list QuoteMatch) :
  chunk_outcome json_loads self chunk = Ok found -> Forall valid_match found.
Proof.
  unfold chunk_outcome.
  destruct (client self chunk) as [|[raw|]]; try discriminate.
  destruct (json_loads raw) as [parsed|]; [|discriminate].
  apply parse_matches_valid.
Qed.

Lemma collect_outcome_valid (json_loads : string -> option json) (self : app)
    (chunks : list string) :
  forall acc ms,
    Forall valid_match acc ->
    collect_outcome json_loads self chunks acc = Ok ms ->
    Forall valid_match ms.
Proof.
  induction chunks as [|c chunks IH]; intros acc ms Hacc H; simpl in H.
  - now inversion H; subst.
  - destruct (chunk_outcome json_loads self c) as [found|] eqn:Hc; [|discriminate].
    eapply IH; [|exact H]. apply Forall_app. split; [exact Hacc|].
    eapply chunk_outcome_valid. exact Hc.
Qed.

Lemma collect_outcome_all_ok (json_loads : string -> option json) (self : app)
    (chunks : list string) :
  Forall (fun c => exists found, chunk_outcome json_loads self c = Ok found) chunks ->
  forall acc, exists ms, collect_outcome json_loads self chunks acc = Ok ms.
Proof.
  induction 1 as [|c chunks [found Hc] _ IH]; intros acc; simpl.
  - now exists acc.
  - rewrite Hc. apply IH.
Qed.

Lemma collect_log_first_failure (json_loads : string -> option json) (self : app)
    (pre post : list string) (chunk : string) (e : exn) :
  Forall (fun c => exists found, chunk_outcome json_loads self c = Ok found) pre ->
  chunk_outcome json_loads self chunk = Raise e ->
  collect_log json_loads self (pre ++ chunk :: post)
  = (flat_map (chunk_log json_loads self) pre ++ [coding_line chunk])%list.
Proof.
  intros Hpre Hfail. induction Hpre as [|c pre [found Hc] _ IH]; simpl.
  - unfold chunk_log. now rewrite Hfail.
  - rewrite Hc, IH. now rewrite <- app_assoc.
Qed.

Lemma shade_with_nothing (doc : document) :
  map (fun p => shade_with (colors_for (paragraph_text p) []) p) doc = doc.
Proof. rewrite <- (map_id doc) at 2. apply map_ext. reflexivity. Qed.

(** X14: when the document has text, the call for every chunk returns and
    the output path can be written, the run succeeds: the matches all carry
    codes of the table, so the lookup in [_apply_highlights] finds every
    category; the file
    written holds every paragraph with its runs shaded once per match found
    in it, followed by the legend; and the log reports the number of quotes
    found, or that no excerpt was returned. *)
Theorem all_chunks_ok_run_succeeds (json_loads : string -> option json) (self : app)
    (w : world) (doc : document)
    (Hdisk : disk w (input_path self) = Some doc)
    (Htext : extract_paragraphs doc <> [])
    (Hok : Forall (fun c => exists found, chunk_outcome json_loads self c = Ok found)
                  (chunk_text (extract_paragraphs doc) default_max_chars))
    (Hsave : write_error w (output_path self) = None) :
  let w' := _process_document json_loads self w in
  let chunks := chunk_text (extract_paragraphs doc) default_max_chars in
  exists ms,
    collect_outcome json_loads self chunks [] = Ok ms
    /\ Forall valid_match ms
    /\ disk w' = write_file (disk w) (output_path self)
                   (map (fun p => shade_with (colors_for (paragraph_text p) ms) p) doc
                    ++ legend_block)%list
    /\ dialogs w' = (dialogs w ++ [showinfo "Done" "Processing complete!"])%list
    /\ log w' = (log w ++ loading_line :: collect_log json_loads self chunks
                 ++ [if nonempty ms
                     then applied_line
                            (List.length (filter (fun m => quote_found doc (quote m)) ms))
                     else no_excerpts_line;
                     saved_line self])%list
    /\ button_enabled w' = true.
Proof.
  cbv zeta.
  destruct (collect_outcome_all_ok json_loads self _ Hok []) as [ms Hms].
  assert (Hvalid : Forall valid_match ms)
    by (eapply collect_outcome_valid; [constructor | exact Hms]).
  exists ms. split; [exact Hms|]. split; [exact Hvalid|].
  destruct ms as [|m ms].
  - rewrite (process_no_matches json_loads self w doc Hdisk Htext Hms Hsave).
    rewrite append_legend_eq, shade_with_nothing. repeat split.
  - assert (Hcodes : Forall (fun m0 => in_taxonomy (category m0) = true) (m :: ms))
      by (eapply Forall_impl; [|exact Hvalid]; intros m0 Hm0; apply Hm0).
    pose proof (apply_highlights_closed_form (m :: ms) doc 0 Hcodes) as Happ.
    rewrite (process_with_matches json_loads self w doc Hdisk m ms _ _ Htext Hms Happ Hsave).
    rewrite append_legend_eq. repeat split.
Qed.

Lemma all_chunks_ok_run_succeeds_witness :
  let self := example_app (payload_two "A" "Hello world" "b" "hi there") in
  let w' := _process_document example_loads self (example_world hello_doc) in
  extract_paragraphs hello_doc <> []
  /\ Forall (fun c => exists found, chunk_outcome example_loads self c = Ok found)
            (chunk_text (extract_paragraphs hello_doc) default_max_chars)
  /\ write_error (example_world hello_doc) "out.docx" = None
  /\ dialogs w' = [showinfo "Done" "Processing complete!"]
  /\ button_enabled w' = true.
Proof.
  cbv zeta.
  assert (Htext : extract_paragraphs hello_doc <> []) by discriminate.
  assert (Hok : Forall (fun c => exists found,
                          chunk_outcome example_loads
                            (example_app (payload_two "A" "Hello world" "b" "hi there")) c
                          = Ok found)
                       (chunk_text (extract_paragraphs hello_doc) default_max_chars)).
  { constructor; [|constructor]. eexists. reflexivity. }
  split; [exact Htext|]. split; [exact Hok|]. split; [reflexivity|].
  destruct (all_chunks_ok_run_succeeds example_loads
              (example_app (payload_two "A" "Hello world" "b" "hi there"))
              (example_world hello_doc) hello_doc eq_refl Htext Hok eq_refl)
    as [ms [_ [_ [_ [Hdlg [_ Hbtn]]]]]].
  split; [exact Hdlg | exact Hbtn].
Defined.

Lemma write_file_elsewhere (d : string -> option document) (out path : string)
    (doc : document) :
  path <> out -> write_file d out doc path = d path.
Proof. intros H. unfold write_file. apply String.eqb_neq in H. now rewrite H. Qed.

(** X15: every run of [_process_document], however it ends, logs the loading
    line first and keeps the earlier log, shows exactly one message box (the
    error or the closing one), leaves the process button enabled, and touches
    no file but the one at the output path. *)
Theorem process_document_one_dialog (json_loads : string -> option json) (self : app)
    (w : world) :
  let w' := _process_document json_loads self w in
  exists lines d,
    log w' = (log w ++ loading_line :: lines)%list
    /\ dialogs w' = (dialogs w ++ [d])%list
    /\ button_enabled w' = true
    /\ (forall path, path <> output_path self -> disk w' path = disk w path).
Proof.
  cbv zeta.
  assert (Hfail : forall e pre,
            exists lines d,
              log (failed e (add_log (loading_line :: pre) w))
              = (log w ++ loading_line :: lines)%list
              /\ dialogs (failed e (add_log (loading_line :: pre) w)) = (dialogs w ++ [d])%list
              /\ button_enabled (failed e (add_log (loading_line :: pre) w)) = true
              /\ (forall path, path <> output_path self ->
                    disk (failed e (add_log (loading_line :: pre) w)) path = disk w path)).
  { intros e pre. exists (pre ++ [("ERROR: " ++ exn_str e)%string])%list. eexists.
    cbn [failed add_log log dialogs button_enabled disk].
    rewrite <- app_assoc. repeat split. }
  assert (Hsucc : forall pre d,
            exists lines dlg,
              log (succeeded (loading_line :: pre) d self w)
              = (log w ++ loading_line :: lines)%list
              /\ dialogs (succeeded (loading_line :: pre) d self w) = (dialogs w ++ [dlg])%list
              /\ button_enabled (succeeded (loading_line :: pre) d self w) = true
              /\ (forall path, path <> output_path self ->
                    disk (succeeded (loading_line :: pre) d self w) path = disk w path)).
  { intros pre d. exists pre. eexists.
    cbn [succeeded log dialogs button_enabled disk]. repeat split.
    intros path Hp. now apply write_file_elsewhere. }
  destruct (disk w (input_path self)) as [doc|] eqn:Hd.
  2:{ destruct (process_load_fails json_loads self w Hd) as [e ->]. apply (Hfail e []). }
  destruct (extract_paragraphs doc) as [|p ps] eqn:Hps.
  { rewrite (process_no_text json_loads self w doc Hd Hps). apply (Hfail no_text []). }
  assert (Hne : extract_paragraphs doc <> []) by (rewrite Hps; discriminate).
  destruct (collect_outcome json_loads self
              (chunk_text (extract_paragraphs doc) default_max_chars) [])
    as [[|m ms] | e] eqn:Hout.
  - destruct (write_error w (output_path self)) as [message|] eqn:Hw.
    + rewrite (process_no_matches_save_fails json_loads self w doc Hd message Hne Hout Hw).
      apply Hfail.
    + rewrite (process_no_matches json_loads self w doc Hd Hne Hout Hw). apply Hsucc.
  - destruct (_apply_highlights doc (m :: ms) 0) as [[doc' n] | e] eqn:Happ.
    + destruct (write_error w (output_path self)) as [message|] eqn:Hw.
      * rewrite (process_with_matches_save_fails json_loads self w doc Hd m ms doc' n
                   message Hne Hout Happ Hw).
        apply Hfail.
      * rewrite (process_with_matches json_loads self w doc Hd m ms doc' n Hne Hout Happ Hw).
        apply Hsucc.
    + rewrite (process_highlight_fails json_loads self w doc Hd m ms e Hne Hout Happ).
      apply Hfail.
  - rewrite (process_collect_fails json_loads self w doc Hd e Hne Hout). apply Hfail.
Qed.

Lemma extract_blank (doc : document) :
  Forall (fun p => strip (paragraph_text p) = EmptyString) doc ->
  extract_paragraphs doc = [].
Proof.
  unfold extract_paragraphs. induction 1 as [|p doc Hp _ IH]; simpl; [reflexivity|].
  now rewrite Hp.
Qed.

(** X16: a document whose paragraphs are all blank is refused before any
    chunk is coded: the only lines logged are the loading line and the
    error, the error box says that no text was found, and nothing is
    written. *)
Theorem empty_document_fails_early (json_loads : string -> option json) (self : app)
    (w : world) (doc : document)
    (Hdisk : disk w (input_path self) = Some doc)
    (Hblank : Forall (fun p => strip (paragraph_text p) = EmptyString) doc) :
  let w' := _process_document json_loads self w in
  log w' = (log w ++ [loading_line; "ERROR: No text found in the document."])%list
  /\ dialogs w'
     = (dialogs w ++ [showerror "Processing failed" "No text found in the document."])%list
  /\ disk w' = disk w
  /\ button_enabled w' = true.
Proof.
  cbv zeta.
  rewrite (process_no_text json_loads self w doc Hdisk (extract_blank doc Hblank)).
  cbn [failed add_log log dialogs disk button_enabled]. rewrite <- app_assoc.
  repeat split.
Qed.

Lemma empty_document_fails_early_witness :
  let w' := _process_document example_loads (example_app payload_empty)
                              (example_world blank_doc) in
  Forall (fun p => strip (paragraph_text p) = EmptyString) blank_doc
  /\ log w' = ["Loading transcript..."; "ERROR: No text found in the document."]
  /\ disk w' "out.docx" = None.
Proof.
  cbv zeta.
  assert (Hb : Forall (fun p => strip (paragraph_text p) = EmptyString) blank_doc)
    by (repeat constructor).
  split; [exact Hb|].
  destruct (empty_document_fails_early example_loads (example_app payload_empty)
              (example_world blank_doc) blank_doc eq_refl Hb) as [Hlog [_ [Hd _]]].
  split; [exact Hlog | now rewrite Hd].
Defined.

(** X17: the first chunk whose call raises, for whatever reason (the service
    call failed, the content is missing or no JSON, the decoded value breaks
    a loop), ends the run with that error: the chunks after it are not
    coded, the matches of the chunks before it are not applied, and nothing
    is written. *)
Theorem first_failure_aborts (json_loads : string -> option json) (self : app)
    (w : world) (doc : document) (pre post : list string) (chunk : string) (e : exn)
    (Hdisk : disk w (input_path self) = Some doc)
    (Htext : extract_paragraphs doc <> [])
    (Hchunks : chunk_text (extract_paragraphs doc) default_max_chars
               = (pre ++ chunk :: post)%list)
    (Hpre : Forall (fun c => exists found, chunk_outcome json_loads self c = Ok found) pre)
    (Hfail : chunk_outcome json_loads self chunk = Raise e) :
  let w' := _process_document json_loads self w in
  log w' = (log w ++ loading_line :: flat_map (chunk_log json_loads self) pre
            ++ [coding_line chunk; ("ERROR: " ++ exn_str e)%string])%list
  /\ dialogs w' = (dialogs w ++ [showerror "Processing failed" (exn_str e)])%list
  /\ disk w' = disk w
  /\ button_enabled w' = true.
Proof.
  cbv zeta.
  pose proof (collect_outcome_first_failure json_loads self pre post chunk e Hpre Hfail [])
    as Hcol.
  pose proof (collect_log_first_failure json_loads self pre post chunk e Hpre Hfail) as Hlog.
  rewrite <- Hchunks in Hcol, Hlog.
  rewrite (process_collect_fails json_loads self w doc Hdisk e Htext Hcol), Hlog.
  cbn [failed add_log log dialogs disk button_enabled].
  split; [|repeat split].
  rewrite <- app_assoc. cbn [List.app]. rewrite <- app_assoc. reflexivity.
Qed.

Lemma first_failure_aborts_witness :
  let w' := _process_document example_loads failing_app (example_world hello_doc) in
  chunk_outcome example_loads failing_app ("Hello world" ++ nl ++ "hi there")
  = Raise service_failed
  /\ log w' = [ "Loading transcript...";
                "Coding chunk with 20 characters...";
                "ERROR: Azure OpenAI call failed. Please confirm your endpoint, deployment name, API version, and key." ]
  /\ disk w' "out.docx" = None.
Proof.
  cbv zeta.
  assert (Hf : chunk_outcome example_loads failing_app ("Hello world" ++ nl ++ "hi there")
               = Raise service_failed) by reflexivity.
  split; [exact Hf|].
  destruct (first_failure_aborts example_loads failing_app (example_world hello_doc)
              hello_doc [] [] ("Hello world" ++ nl ++ "hi there") service_failed
              eq_refl ltac:(discriminate) eq_refl (Forall_nil _) Hf)
    as [Hlog [_ [Hd _]]].
  split; [exact Hlog | now rewrite Hd].
Defined.

(** ** The client configuration *)

(** The loop, the two lists and the lookups of [_build_client], in one
    expression. *)
Lemma build_client_eq (AzureOpenAI : client_config -> option string)
    (environ : list (string * string)) :
  _build_client AzureOpenAI environ
  = let missing := filter (blank environ) required_vars in
    if nonempty missing then EnvironmentError (missing_message missing)
    else
      let endpoint :=
        rstrip_char "/" (strip (environ_get environ "AZURE_OPENAI_ENDPOINT" EmptyString)) in
      if negb (String.prefix "https://" endpoint) then EnvironmentError endpoint_message
      else
        let cfg :=
          {| api_key := strip (environ_get environ "AZURE_OPENAI_API_KEY" EmptyString);
             azure_endpoint := endpoint;
             api_version := environ_get environ "AZURE_OPENAI_API_VERSION"
                                        "2024-02-15-preview" |} in
        match AzureOpenAI cfg with
        | Some message => ConstructorError message
        | None => Built cfg
        end.
Proof.
  unfold _build_client, required_vars, blank. cbn [fold_left filter].
  unfold build_step. cbn [fst snd].
  destruct (truthy (strip (environ_get environ "AZURE_OPENAI_API_KEY" EmptyString)));
    destruct (truthy (strip (environ_get environ "AZURE_OPENAI_ENDPOINT" EmptyString)));
    destruct (truthy (strip (environ_get environ "AZURE_OPENAI_DEPLOYMENT" EmptyString)));
    reflexivity.
Qed.

Lemma rstrip_char_no_trailing (c : ascii) (s : string) :
  ends_with c (rstrip_char c s) = false.
Proof.
  induction s as [|a s IH]; [reflexivity|]. simpl.
  destruct (rstrip_char c s) as [|b r].
  - destruct (Ascii.eqb a c) eqn:Ha; [reflexivity|]. simpl. exact Ha.
  - exact IH.
Qed.

Lemma filter_nil_none {A : Type} (f : A -> bool) (l : list A) :
  filter f l = [] -> forall x, In x l -> f x = false.
Proof.
  induction l as [|a l IH]; simpl; intros H x Hx; [contradiction|].
  destruct (f a) eqn:Ha; [discriminate|]. destruct Hx as [<- | Hx]; auto.
Qed.

(** X18: a client is only built from an endpoint that, trimmed and without
    its trailing slashes, starts with "https://"; the endpoint handed over
    has no trailing slash, the key is trimmed and not empty, all three
    required variables are set to something not blank, and the API version
    is the variable's value as it stands, or the default when it is unset. *)
Theorem build_client_built (AzureOpenAI : client_config -> option string)
    (environ : list (string * string)) (cfg : client_config)
    (Hbuilt : _build_client AzureOpenAI environ = Built cfg) :
  String.prefix "https://" (azure_endpoint cfg) = true
  /\ ends_with "/" (azure_endpoint cfg) = false
  /\ api_key cfg <> EmptyString
  /\ strip (api_key cfg) = api_key cfg
  /\ (forall var, In var required_vars -> blank environ var = false)
  /\ api_version cfg
     = match dict_get "AZURE_OPENAI_API_VERSION" environ with
       | Some v => v
       | None => "2024-02-15-preview"
       end.
Proof.
  rewrite build_client_eq in Hbuilt. cbv zeta in Hbuilt.
  destruct (filter (blank environ) required_vars) as [|v vs] eqn:Hmissing;
    [|discriminate]. cbn [nonempty] in Hbuilt.
  destruct (String.prefix "https://"
              (rstrip_char "/" (strip (environ_get environ "AZURE_OPENAI_ENDPOINT" EmptyString))))
    eqn:Hscheme; [|discriminate].
  cbn [negb] in Hbuilt.
  destruct (AzureOpenAI _) as [message|]; [discriminate|].
  inversion Hbuilt; subst cfg; clear Hbuilt. cbn [azure_endpoint api_key api_version].
  pose proof (filter_nil_none _ _ Hmissing) as Hset.
  split; [exact Hscheme|]. split; [apply rstrip_char_no_trailing|].
  split.
  { assert (Hk : blank environ "AZURE_OPENAI_API_KEY" = false) by (apply Hset; now left).
    unfold blank in Hk. apply negb_false_iff in Hk. now apply truthy_true. }
  split; [apply strip_idempotent|]. split; [exact Hset | reflexivity].
Qed.

Lemma build_client_built_witness :
  _build_client (fun _ => None) example_environ
  = Built {| api_key := "secret";
             azure_endpoint := "https://my-resource.openai.azure.com";
             api_version := "2024-02-15-preview" |}
  /\ ends_with "/" "https://my-resource.openai.azure.com" = false.
Proof.
  assert (H : _build_client (fun _ => None) example_environ
              = Built {| api_key := "secret";
                         azure_endpoint := "https://my-resource.openai.azure.com";
                         api_version := "2024-02-15-preview" |}) by reflexivity.
  split; [exact H|].
  exact (proj1 (proj2 (build_client_built (fun _ => None) example_environ _ H))).
Defined.

(** X19: when a required variable is unset or blank, [_build_client] raises
    [EnvironmentError] naming exactly the unset or blank variables, in the
    order of the tuple, whatever the endpoint looks like. *)
Theorem build_client_missing (AzureOpenAI : client_config -> option string)
    (environ : list (string * string)) (var : string)
    (Hvar : In var required_vars)
    (Hblank : blank environ var = true) :
  _build_client AzureOpenAI environ
  = EnvironmentError ("Missing Azure OpenAI environment variables: "
                      ++ join ", " (filter (blank environ) required_vars))
  /\ In var (filter (blank environ) required_vars).
Proof.
  assert (Hin : In var (filter (blank environ) required_vars))
    by (apply filter_In; now split).
  split; [|exact Hin].
  rewrite build_client_eq. cbv zeta.
  destruct (filter (blank environ) required_vars); [contradiction | reflexivity].
Qed.

Lemma build_client_missing_witness :
  let environ := [("AZURE_OPENAI_ENDPOINT", "https://x"); ("AZURE_OPENAI_DEPLOYMENT", "  ")] in
  blank environ "AZURE_OPENAI_DEPLOYMENT" = true
  /\ _build_client (fun _ => None) environ
     = EnvironmentError ("Missing Azure OpenAI environment variables: "
                         ++ "AZURE_OPENAI_API_KEY, AZURE_OPENAI_DEPLOYMENT").
Proof.
  cbv zeta. split; [reflexivity|].
  exact (proj1 (build_client_missing (fun _ => None)
                  [("AZURE_OPENAI_ENDPOINT", "https://x"); ("AZURE_OPENAI_DEPLOYMENT", "  ")]
                  "AZURE_OPENAI_DEPLOYMENT" ltac:(simpl; tauto) eq_refl)).
Defined.

(** X20: the lookups in [cleaned] never fail; the [EnvironmentError]s that
    the checks of [_build_client] raise are the list of missing variables
    and the endpoint that is no https URL, and nothing else; any other
    exception is the one the constructor [AzureOpenAI(...)] raises, and the
    constructor is called only once both checks have passed, with an
    endpoint that starts with "https://". *)
Theorem build_client_outcomes (AzureOpenAI : client_config -> option string)
    (environ : list (string * string)) :
  (forall key, _build_client AzureOpenAI environ <> CleanedKeyError key)
  /\ (forall message,
        _build_client AzureOpenAI environ = EnvironmentError message ->
        message = missing_message (filter (blank environ) required_vars)
        \/ message = endpoint_message)
  /\ (forall message,
        _build_client AzureOpenAI environ = ConstructorError message ->
        filter (blank environ) required_vars = []
        /\ exists cfg, AzureOpenAI cfg = Some message
                       /\ String.prefix "https://" (azure_endpoint cfg) = true
                       /\ ends_with "/" (azure_endpoint cfg) = false).
Proof.
  rewrite build_client_eq. cbv zeta.
  destruct (filter (blank environ) required_vars) as [|v vs]; cbn [nonempty].
  2:{ repeat split; try discriminate. intros message H. inversion H. now left. }
  destruct (String.prefix "https://" _) eqn:Hscheme; cbn [negb].
  2:{ repeat split; try discriminate. intros message H. inversion H. now right. }
  destruct (AzureOpenAI _) as [raised|] eqn:Hcall.
  - split; [discriminate|]. split; [discriminate|].
    intros message H. inversion H; subst. split; [reflexivity|].
    eexists. split; [exact Hcall|]. cbn [azure_endpoint].
    split; [exact Hscheme | apply rstrip_char_no_trailing].
  - repeat split; discriminate.
Qed.

(** The constructor refusing an endpoint it cannot parse. *)
Example build_client_constructor_raises :
  _build_client
    (fun cfg => if String.eqb (azure_endpoint cfg) "https://[::1"
                then Some "Invalid IPv6 URL" else None)
    [ ("AZURE_OPENAI_API_KEY", "k"); ("AZURE_OPENAI_ENDPOINT", "https://[::1");
      ("AZURE_OPENAI_DEPLOYMENT", "d") ]
  = ConstructorError "Invalid IPv6 URL".
Proof. reflexivity. Qed.

(** ** The legend *)

(** X21: the legend agrees with the highlighting.  For every category of the
    table, the legend appended to any document holds the entry of that
    category, whose text names the code and the title and whose swatch run
    carries one shading value, the color [_apply_highlights] uses for the
    category; the table has eight codes, all different, with eight different
    colors. *)
Theorem legend_agrees_with_highlighting (doc : document) (code : string)
    (meta : category_meta)
    (Hcode : dict_get code CATEGORY_DETAILS = Some meta) :
  In (legend_entry code meta) (_append_legend doc)
  /\ paragraph_text (legend_entry code meta)
     = (code ++ ". " ++ title meta ++ " " ++ en_dash ++ " ") ++ "example"
  /\ map shadings (paragraph_runs (legend_entry code meta)) = [[]; [color meta]]
  /\ NoDup (map fst CATEGORY_DETAILS)
  /\ NoDup (map (fun cm => color (snd cm)) CATEGORY_DETAILS)
  /\ List.length CATEGORY_DETAILS = 8%nat.
Proof.
  split; [|split; [|split; [|split; [|split]]]].
  - rewrite append_legend_eq. apply in_or_app. right. right.
    assert (Hin : In (code, meta) CATEGORY_DETAILS).
    { revert Hcode. generalize CATEGORY_DETAILS. intros d.
      induction d as [|[k v] d IH]; simpl; [discriminate|].
      destruct (String.eqb_spec k code) as [-> | Hne]; intros H.
      - inversion H. now left.
      - right. now apply IH. }
    apply in_map_iff. exists (code, meta). split; [reflexivity | exact Hin].
  - reflexivity.
  - reflexivity.
  - repeat constructor; simpl; intuition discriminate.
  - repeat constructor; simpl; intuition discriminate.
  - reflexivity.
Qed.

Lemma legend_agrees_with_highlighting_witness :
  dict_get "B" CATEGORY_DETAILS
  = Some {| title := "Feasibility & Practical Implementation"; color := "DAEEF3" |}
  /\ map shadings
       (paragraph_runs
          (legend_entry "B" {| title := "Feasibility & Practical Implementation";
                               color := "DAEEF3" |}))
     = [[]; ["DAEEF3"]].
Proof.
  split; [reflexivity|].
  exact (proj1 (proj2 (proj2
           (legend_agrees_with_highlighting [] "B"
              {| title := "Feasibility & Practical Implementation"; color := "DAEEF3" |}
              eq_refl)))).
Defined.

(** ** Verbatim quotes are found *)

Lemma prefix_append (s t : string) : String.prefix s (s ++ t) = true.
Proof.
  induction s as [|a s IH]; simpl; [now destruct t|].
  destruct (ascii_dec a a); [exact IH | congruence].
Qed.

Lemma contains_append (needle before after : string) :
  contains needle (before ++ needle ++ after) = true.
Proof.
  induction before as [|a before IH].
  - change (EmptyString ++ needle ++ after) with (needle ++ after).
    pose proof (prefix_append needle after) as H.
    destruct (needle ++ after); cbn [contains]; now rewrite H.
  - simpl. rewrite IH. apply orb_true_r.
Qed.

Lemma prefix_split (s h : string) :
  String.prefix s h = true -> exists after, h = s ++ after.
Proof.
  revert h. induction s as [|a s IH]; intros h H.
  - now exists h.
  - destruct h as [|b h]; simpl in H; [discriminate|].
    destruct (ascii_dec a b) as [<- | _]; [|discriminate].
    destruct (IH h H) as [after ->]. now exists after.
Qed.

Lemma contains_split (needle hay : string) :
  contains needle hay = true -> exists before after, hay = before ++ needle ++ after.
Proof.
  induction hay as [|a hay IH]; cbn [contains]; intros H.
  - rewrite orb_false_r in H. destruct (prefix_split _ _ H) as [after ->].
    now exists EmptyString, after.
  - apply orb_true_iff in H. destruct H as [H | H].
    + destruct (prefix_split _ _ H) as [after Hafter].
      exists EmptyString, after. exact Hafter.
    + destruct (IH H) as [before [after ->]]. now exists (String a before), after.
Qed.

Lemma map_chars_append (f : ascii -> ascii) (s t : string) :
  map_chars f (s ++ t) = map_chars f s ++ map_chars f t.
Proof. induction s as [|a s IH]; simpl; [reflexivity | now rewrite IH]. Qed.

(** The test on a text is the case-insensitive substring test. *)
Lemma text_matches_iff (quote text : string) :
  text_matches quote text = true
  <-> strip text <> EmptyString
      /\ exists before after,
           lower (strip text) = before ++ lower (strip quote) ++ after.
Proof.
  unfold text_matches. rewrite andb_true_iff, truthy_true. split; intros [H1 H2].
  - split; [exact H1 | now apply contains_split].
  - split; [exact H1|]. destruct H2 as [before [after ->]]. apply contains_append.
Qed.

(** X22: a quote that stands verbatim in a paragraph is found.  When the
    trimmed text of some paragraph of the document contains the trimmed quote
    (in any letter case: its lower-cased form contains the lower-cased
    quote), and the quote is not blank, [highlight_quote] returns true, and
    [_apply_highlights] counts the match. *)
Theorem verbatim_quote_found (doc : document) (p : paragraph) (m : QuoteMatch)
    (meta : category_meta) (before after : string)
    (Hin : In p doc)
    (Hquote : strip (quote m) <> EmptyString)
    (Hcat : dict_get (category m) CATEGORY_DETAILS = Some meta)
    (Hverbatim : lower (strip (paragraph_text p))
                 = before ++ lower (strip (quote m)) ++ after) :
  snd (highlight_quote doc (quote m) (color meta)) = true
  /\ exists doc', _apply_highlights doc [m] 0 = Ok (doc', 1%nat).
Proof.
  assert (Hfound : quote_found doc (quote m) = true).
  { unfold quote_found. apply andb_true_iff. split; [now apply truthy_true|].
    apply existsb_exists. exists (paragraph_text p). split; [now apply in_map|].
    apply text_matches_iff. split; [|now exists before, after].
    intros He. rewrite He in Hverbatim. simpl in Hverbatim.
    apply truthy_true in Hquote.
    rewrite <- (truthy_map_chars lower_char) in Hquote. fold (lower (strip (quote m))) in Hquote.
    destruct before; [|discriminate].
    destruct (lower (strip (quote m))); discriminate. }
  split; [now rewrite highlight_quote_flag|].
  eexists.
  rewrite (apply_highlights_closed_form [m] doc 0)
    by (constructor; [eapply lookup_in_taxonomy; exact Hcat | constructor]).
  cbn [filter]. rewrite Hfound. reflexivity.
Qed.

Lemma verbatim_quote_found_witness :
  let m := {| category := "B"; quote := "  quick BROWN " |} in
  lower (strip "The quick Brown fox") = "the " ++ lower (strip (quote m)) ++ " fox"
  /\ snd (highlight_quote fox_doc (quote m) "DAEEF3") = true.
Proof.
  cbv zeta. split; [reflexivity|].
  exact (proj1 (verbatim_quote_found fox_doc
                  {| content := [Run (new_run "The quick "); Run (new_run "Brown fox")] |}
                  {| category := "B"; quote := "  quick BROWN " |}
                  {| title := "Feasibility & Practical Implementation"; color := "DAEEF3" |}
                  "the " " fox"
                  ltac:(now left) ltac:(discriminate) eq_refl eq_refl)).
Defined.

(** ** An output path that cannot be written *)

(** X23: [document.save] sits inside the [try] block: when the output path
    cannot be written, a run whose chunk calls all returned still ends as a
    failed run, after the coding and the highlighting were done: the error
    box and the last log line carry the message of the operating system,
    no closing box is shown, and no file is written. *)
Theorem unwritable_output_fails (json_loads : string -> option json) (self : app)
    (w : world) (doc : document) (message : string)
    (Hdisk : disk w (input_path self) = Some doc)
    (Htext : extract_paragraphs doc <> [])
    (Hok : Forall (fun c => exists found, chunk_outcome json_loads self c = Ok found)
                  (chunk_text (extract_paragraphs doc) default_max_chars))
    (Hsave : write_error w (output_path self) = Some message) :
  let w' := _process_document json_loads self w in
  let chunks := chunk_text (extract_paragraphs doc) default_max_chars in
  exists ms,
    collect_outcome json_loads self chunks [] = Ok ms
    /\ log w' = (log w ++ loading_line :: collect_log json_loads self chunks
                 ++ [if nonempty ms
                     then applied_line
                            (List.length (filter (fun m => quote_found doc (quote m)) ms))
                     else no_excerpts_line;
                     ("ERROR: " ++ message)%string])%list
    /\ dialogs w' = (dialogs w ++ [showerror "Processing failed" message])%list
    /\ disk w' = disk w
    /\ button_enabled w' = true.
Proof.
  cbv zeta.
  destruct (collect_outcome_all_ok json_loads self _ Hok []) as [ms Hms].
  assert (Hvalid : Forall valid_match ms)
    by (eapply collect_outcome_valid; [constructor | exact Hms]).
  exists ms. split; [exact Hms|].
  destruct ms as [|m ms].
  - rewrite (process_no_matches_save_fails json_loads self w doc Hdisk message Htext Hms Hsave).
    cbn [failed add_log log dialogs disk button_enabled exn_str nonempty].
    split; [|repeat split].
    rewrite <- app_assoc. cbn [List.app]. rewrite <- app_assoc. reflexivity.
  - assert (Hcodes : Forall (fun m0 => in_taxonomy (category m0) = true) (m :: ms))
      by (eapply Forall_impl; [|exact Hvalid]; intros m0 Hm0; apply Hm0).
    pose proof (apply_highlights_closed_form (m :: ms) doc 0 Hcodes) as Happ.
    rewrite (process_with_matches_save_fails json_loads self w doc Hdisk m ms _ _ message
               Htext Hms Happ Hsave).
    cbn [failed add_log log dialogs disk button_enabled exn_str nonempty].
    split; [|repeat split].
    rewrite <- app_assoc. cbn [List.app]. rewrite <- app_assoc. reflexivity.
Qed.

Lemma unwritable_output_fails_witness :
  let w' := _process_document example_loads (example_app payload_empty)
                              (locked_world hello_doc) in
  write_error (locked_world hello_doc) "out.docx"
  = Some "[Errno 13] Permission denied: 'out.docx'"
  /\ Forall (fun c => chunk_outcome example_loads (example_app payload_empty) c = Ok [])
            (chunk_text (extract_paragraphs hello_doc) default_max_chars)
  /\ dialogs w' = [showerror "Processing failed" "[Errno 13] Permission denied: 'out.docx'"]
  /\ disk w' "out.docx" = None.
Proof.
  cbv zeta.
  assert (Hok : Forall (fun c => exists found,
                          chunk_outcome example_loads (example_app payload_empty) c = Ok found)
                       (chunk_text (extract_paragraphs hello_doc) default_max_chars)).
  { constructor; [|constructor]. eexists. reflexivity. }
  destruct (unwritable_output_fails example_loads (example_app payload_empty)
              (locked_world hello_doc) hello_doc _ eq_refl ltac:(discriminate) Hok eq_refl)
    as [ms [_ [_ [Hdlg [Hd _]]]]].
  split; [reflexivity|]. split; [repeat constructor|].
  split; [exact Hdlg | now rewrite Hd].
Defined.
